(** * Verification of the scientific calculator of [server.py]

    The development embeds the tool [scientific_calculator] (server.py,
    lines 29-135) and the part of the Python semantics it relies on:
    binary64 floats, unbounded integers, complex numbers, the namespace
    [safe_dict], [str.replace], the arithmetic fragment of the expression
    grammar evaluated by [eval], the result formatter and the exception
    handlers.

    The calls of the C mathematics library ([sin], [pow], ...) are left
    to the host: a computation that needs one stops at the call and goes on
    with whatever float the host answers.  What lies outside the fragment
    (other syntax, calls with optional arguments, texts that depend on the
    interpreter's version or on memory addresses) is marked [Beyond], and
    nothing is claimed about it.  The interpreter's resource limits
    (recursion depth, memory) are not modelled.  The messages of
    exceptions are those of CPython 3.12.

    The tool [generate_qr_code] (lines 137-186) is embedded with the
    package [qrcode] as a parameter, a record of operations that return
    or raise, and with [base64.b64encode] as RFC 4648 defines it.  The
    tools [web_search] and [roll_dice] only hand their arguments to
    packages that are not part of the repository. *)

From Stdlib Require Import ZArith List String Ascii Bool Lia.
From Stdlib Require Import SpecFloat DecimalString.
From Stdlib Require DecimalPos DecimalFacts Strings.Byte.
Import ListNotations.
Local Open Scope string_scope.
Local Open Scope Z_scope.

(** * Python floats: IEEE 754 binary64 *)

Module F64.

Definition prec : Z := 53.
Definition emax : Z := 1024.

(** A float is a specification float of the Standard Library; the
    operations below are its binary64 instances (round to nearest, ties
    to even). *)
Definition float := spec_float.

Definition add : float -> float -> float := SFadd prec emax.
Definition sub : float -> float -> float := SFsub prec emax.
Definition mul : float -> float -> float := SFmul prec emax.
Definition div : float -> float -> float := SFdiv prec emax.
Definition sqrt : float -> float := SFsqrt prec emax.
Definition neg : float -> float := SFopp.
Definition abs : float -> float := SFabs.
Definition eqb : float -> float -> bool := SFeqb.
Definition ltb : float -> float -> bool := SFltb.
Definition leb : float -> float -> bool := SFleb.

Definition zero : float := S754_zero false.
Definition inf : float := S754_infinity false.
Definition nan : float := S754_nan.

Definition is_nan (x : float) : bool :=
  match x with S754_nan => true | _ => false end.

Definition is_inf (x : float) : bool :=
  match x with S754_infinity _ => true | _ => false end.

Definition is_finite (x : float) : bool :=
  match x with S754_zero _ | S754_finite _ _ _ => true | _ => false end.

Definition is_zero (x : float) : bool :=
  match x with S754_zero _ => true | _ => false end.

Definition signbit (x : float) : bool :=
  match x with
  | S754_zero s | S754_infinity s | S754_finite s _ _ => s
  | S754_nan => false
  end.

Definition copysign (x y : float) : float :=
  if signbit y then neg (abs x) else abs x.

(** The quotient [n / d] of two integers ([0 < d]), correctly rounded. *)
Definition of_ratio (n d : Z) : float :=
  match n with
  | Z0 => zero
  | _ =>
      let '(mz, ez, lz) := SFdiv_core_binary prec emax (Z.abs n) 0 d 0 in
      binary_round_aux prec emax (n <? 0) mz ez lz
  end.

(** The float nearest to an integer; an infinity when it is out of
    range. *)
Definition of_Z (n : Z) : float := binary_normalize prec emax n 0 false.

(** The float nearest to [digits * 10 ^ exp10]: the value of a decimal
    literal. *)
Definition of_decimal (digits exp10 : Z) : float :=
  if 0 <=? exp10 then of_Z (digits * 10 ^ exp10)
  else of_ratio digits (10 ^ (- exp10)).

Definition one : float := Eval vm_compute in of_Z 1.

(** [int(x)]: the integer part, toward zero; [None] on infinities and
    NaN. *)
Definition trunc (x : float) : option Z :=
  match x with
  | S754_zero _ => Some 0
  | S754_finite s m e =>
      let a := if 0 <=? e then Zpos m * 2 ^ e else Zpos m / 2 ^ (- e) in
      Some (if s then - a else a)
  | _ => None
  end.

(** [round(x)] with one argument: the nearest integer, ties to even. *)
Definition round_half_even (x : float) : option Z :=
  match x with
  | S754_zero _ => Some 0
  | S754_finite s m e =>
      let a :=
        if 0 <=? e then Zpos m * 2 ^ e
        else
          let d := 2 ^ (- e) in
          let q := Zpos m / d in
          let r := Zpos m mod d in
          match 2 * r ?= d with
          | Lt => q
          | Gt => q + 1
          | Eq => if Z.even q then q else q + 1
          end in
      Some (if s then - a else a)
  | _ => None
  end.

Definition floor (x : float) : option Z :=
  match x with
  | S754_zero _ => Some 0
  | S754_finite s m e =>
      Some (if 0 <=? e then (if s then - (Zpos m * 2 ^ e) else Zpos m * 2 ^ e)
            else (if s then - Zpos m else Zpos m) / 2 ^ (- e))
  | _ => None
  end.

Definition ceil (x : float) : option Z :=
  match floor (neg x) with Some n => Some (- n) | None => None end.

(** ** [repr]: the shortest decimal string that reads back as the float *)

(** The value is [r / s]; the reals that round to it lie between
    [(r - mm) / s] and [(r + mp) / s], bounds included when the mantissa
    is even.  The search goes down the powers of ten [10 ^ k] and stops at
    the first one with a multiple in that interval, taking the multiple
    nearest to the value. *)
Fixpoint shortest (fuel : nat) (k r s mp mm : Z) (incl : bool)
  : option (Z * Z) :=
  match fuel with
  | O => None
  | S fuel' =>
      let p := 10 ^ Z.abs k in
      let '(R, Mp, Mm, W) :=
        if 0 <=? k then (r, mp, mm, s * p) else (r * p, mp * p, mm * p, s) in
      let c := R / W in
      let lo_ok := if incl then R - Mm <=? c * W else R - Mm <? c * W in
      let hi_ok :=
        if incl then (c + 1) * W <=? R + Mp else (c + 1) * W <? R + Mp in
      match (0 <? c) && lo_ok, hi_ok with
      | true, true =>
          if R - c * W <=? (c + 1) * W - R then Some (c, k) else Some (c + 1, k)
      | true, false => Some (c, k)
      | false, true => Some (c + 1, k)
      | false, false => shortest fuel' (k - 1) r s mp mm incl
      end
  end.

Definition shortest_digits (m : positive) (e : Z) : option (Z * Z) :=
  let low_half := Pos.eqb m (2 ^ 52) && (- 1074 <? e) in
  let '(r, s, mp, mm) :=
    if 0 <=? e then
      (4 * Zpos m * 2 ^ e, 4, 2 * 2 ^ e, if low_half then 2 ^ e else 2 * 2 ^ e)
    else
      (4 * Zpos m, 4 * 2 ^ (- e), 2, if low_half then 1 else 2) in
  let k0 := (Zpos (digits2_pos m) + e + 1) * 30103 / 100000 + 2 in
  shortest 400 k0 r s mp mm (Z.even (Zpos m)).

Definition digits_of (n : Z) : string := NilZero.string_of_int (Z.to_int n).

Fixpoint zeros (n : nat) : string :=
  match n with O => EmptyString | S n' => String "0"%char (zeros n') end.

(** The layout of [float_repr_style = 'short']: fixed notation when the
    decimal point falls within [-4 < decpt <= 16], exponent notation
    otherwise. *)
Definition layout (digits : string) (k : Z) : string :=
  let n := Z.of_nat (String.length digits) in
  let decpt := n + k in
  if (- 4 <? decpt) && (decpt <=? 16) then
    if decpt <=? 0 then
      "0." ++ zeros (Z.to_nat (- decpt)) ++ digits
    else if n <=? decpt then
      digits ++ zeros (Z.to_nat (decpt - n)) ++ ".0"
    else
      substring 0 (Z.to_nat decpt) digits ++ "." ++
      substring (Z.to_nat decpt) (Z.to_nat (n - decpt)) digits
  else
    let ex := decpt - 1 in
    let exs := digits_of (Z.abs ex) in
    let exs := if Z.abs ex <? 10 then "0" ++ exs else exs in
    let mant :=
      if n <=? 1 then digits
      else substring 0 1 digits ++ "." ++
           substring 1 (Z.to_nat (n - 1)) digits in
    mant ++ "e" ++ (if ex <? 0 then "-" else "+") ++ exs.

Definition repr (x : float) : string :=
  match x with
  | S754_nan => "nan"
  | S754_infinity s => if s then "-inf" else "inf"
  | S754_zero s => if s then "-0.0" else "0.0"
  | S754_finite s m e =>
      match shortest_digits m e with
      | Some (c, k) => (if s then "-" else "") ++ layout (digits_of c) k
      | None => ""
      end
  end.

End F64.

Import F64.

(** * Exceptions, values and computations *)

(** The exception classes told apart by the handlers of
    [scientific_calculator] (lines 124-135).  A class stands for itself and
    its subclasses; [OtherException] is any other subclass of [Exception]. *)
Inductive exn_class : Type :=
| ZeroDivisionError
| ValueError
| OverflowError
| TypeError
| SyntaxError
| NameError
| OtherException.

(** An exception: its class and [str(e)]. *)
Record exn : Type := mk_exn { exn_cls : exn_class; exn_msg : string }.

(** The functions of the C mathematics library, whose values the model does
    not compute: a call is left to the host and answered by a float. *)
Inductive libm_fn : Type :=
| libm_sin | libm_cos | libm_tan | libm_asin | libm_acos | libm_atan
| libm_atan2
| libm_sinh | libm_cosh | libm_tanh | libm_asinh | libm_acosh | libm_atanh
| libm_log | libm_log10 | libm_log2 | libm_exp | libm_pow | libm_hypot.

(** A computation returns a value, raises an exception, calls the
    mathematics library and goes on with its answer, or steps outside the
    fragment of Python that is modelled ([Beyond]). *)
Inductive comp (A : Type) : Type :=
| Ret (a : A)
| Raise (e : exn)
| Libm (f : libm_fn) (args : list float) (k : float -> comp A)
| Beyond.

Arguments Ret {A} a.
Arguments Raise {A} e.
Arguments Libm {A} f args k.
Arguments Beyond {A}.

Fixpoint bind {A B : Type} (c : comp A) (k : A -> comp B) : comp B :=
  match c with
  | Ret a => k a
  | Raise e => Raise e
  | Libm f args k' => Libm f args (fun r => bind (k' r) k)
  | Beyond => Beyond
  end.

Notation "x <- c ;; k" := (bind c (fun x => k))
  (at level 61, c at next level, right associativity).

Definition raise {A : Type} (c : exn_class) (msg : string) : comp A :=
  Raise (mk_exn c msg).

Definition libm (f : libm_fn) (args : list float) : comp float :=
  Libm f args Ret.

(** [try: c except Exception as e: h e]. *)
Fixpoint try_except {A : Type} (c : comp A) (h : exn -> comp A) : comp A :=
  match c with
  | Ret a => Ret a
  | Raise e => h e
  | Libm f args k => Libm f args (fun r => try_except (k r) h)
  | Beyond => Beyond
  end.

(** Running a computation against a mathematics library. *)
Inductive outcome (A : Type) : Type :=
| Returned (a : A)
| Raised (e : exn)
| Unmodelled.

Arguments Returned {A} a.
Arguments Raised {A} e.
Arguments Unmodelled {A}.

Fixpoint run {A : Type} (host : libm_fn -> list float -> float) (c : comp A)
  : outcome A :=
  match c with
  | Ret a => Returned a
  | Raise e => Raised e
  | Libm f args k => run host (k (host f args))
  | Beyond => Unmodelled
  end.

(** The function objects bound in [safe_dict]. *)
Inductive builtin : Type :=
| math_sin | math_cos | math_tan | math_asin | math_acos | math_atan
| math_atan2
| math_sinh | math_cosh | math_tanh | math_asinh | math_acosh | math_atanh
| math_log | math_log10 | math_log2
| math_exp | cmath_sqrt | lambda_cbrt
| builtin_pow | builtin_abs
| math_ceil | math_floor | math_trunc
| builtin_round
| math_degrees | math_radians
| math_factorial
| math_gcd | math_lcm
| builtin_complex | lambda_real | lambda_imag | lambda_conjugate
| cmath_phase | cmath_polar | cmath_rect.

(** The values of the fragment: [int], [float], [complex], the function
    objects of the namespace and the empty mapping bound to
    [__builtins__]. *)
Inductive value : Type :=
| VInt (n : Z)
| VFloat (x : float)
| VComplex (re im : float)
| VFun (f : builtin)
| VDict.

(** ** Conversions *)

(** [str(n)] for an integer. *)
Definition str_int (n : Z) : string := digits_of n.

(** An integer fits a float when it rounds to a finite one: its magnitude
    is below the midpoint of the largest float, [2 ^ 1024 - 2 ^ 971], and
    [2 ^ 1024]. *)
Definition fits_double (n : Z) : bool := Z.abs n <? 2 ^ 1024 - 2 ^ 970.

(** Converting an [int] operand to a [float] ([PyLong_AsDouble]). *)
Definition float_of_int (n : Z) : comp float :=
  if fits_double n then Ret (of_Z n)
  else raise OverflowError "int too large to convert to float".

Definition int_of_float (conv : float -> option Z) (x : float) : comp Z :=
  match conv x with
  | Some n => Ret n
  | None =>
      if is_nan x then raise ValueError "cannot convert float NaN to integer"
      else raise OverflowError "cannot convert float infinity to integer"
  end.

(** [round(x)] and [int(x)] on a float. *)
Definition py_round (x : float) : comp Z := int_of_float round_half_even x.
Definition py_int (x : float) : comp Z := int_of_float trunc x.

(** [x - n] for a float [x] and an integer [n]. *)
Definition float_sub_int (x : float) (n : Z) : comp float :=
  y <- float_of_int n ;; Ret (sub x y).

(** ** [str.replace] *)

(** [replace old new s] for a non-empty [old]: occurrences are replaced from
    the left and do not overlap; [skip] counts the characters of a replaced
    occurrence still to be dropped. *)
Fixpoint replace_from (old new : string) (skip : nat) (s : string) : string :=
  match s with
  | EmptyString => EmptyString
  | String c s' =>
      match skip with
      | S n => replace_from old new n s'
      | O =>
          if prefix old s
          then new ++ replace_from old new (String.length old - 1) s'
          else String c (replace_from old new 0 s')
      end
  end.

Definition replace (old new s : string) : string := replace_from old new 0 s.

(** * The arithmetic fragment of the expression grammar *)

(** [eval] compiles its string argument with the grammar of Python
    expressions.  The fragment modelled here has number literals (integer,
    decimal, exponent and imaginary), names, the unary operators [+] and
    [-], the binary operators [+ - * / // % **], parentheses and calls; this
    is what the docstring of [scientific_calculator] advertises.  Anything
    else is reported as outside the fragment ([None]). *)

Inductive token : Type :=
| TInt (n : Z)
| TFloat (x : float)
| TImag (x : float)
| TName (id : string)
| TPlus | TMinus | TStar | TSlash | TDoubleSlash | TPercent | TDoubleStar
| TLParen | TRParen | TComma.

Definition is_digit (c : ascii) : bool :=
  let n := nat_of_ascii c in (48 <=? n)%nat && (n <=? 57)%nat.

Definition is_letter (c : ascii) : bool :=
  let n := nat_of_ascii c in
  ((65 <=? n)%nat && (n <=? 90)%nat) || ((97 <=? n)%nat && (n <=? 122)%nat)
  || (n =? 95)%nat.

Definition is_space (c : ascii) : bool :=
  let n := nat_of_ascii c in (n =? 32)%nat || (n =? 9)%nat.

Fixpoint span (p : ascii -> bool) (s : string) : string * string :=
  match s with
  | EmptyString => (EmptyString, EmptyString)
  | String c s' =>
      if p c then let '(a, b) := span p s' in (String c a, b)
      else (EmptyString, s)
  end.

Fixpoint Z_of_digits (acc : Z) (s : string) : Z :=
  match s with
  | EmptyString => acc
  | String c s' => Z_of_digits (10 * acc + Z.of_nat (nat_of_ascii c - 48)) s'
  end.

Definition all_zero (s : string) : bool :=
  match span (Ascii.eqb "0") s with (_, EmptyString) => true | _ => false end.

Definition starts_with (p : ascii -> bool) (s : string) : bool :=
  match s with String c _ => p c | EmptyString => false end.

Definition tail (s : string) : string :=
  match s with String _ s' => s' | EmptyString => EmptyString end.

Definition is_e (c : ascii) : bool := Ascii.eqb c "e" || Ascii.eqb c "E".
Definition is_j (c : ascii) : bool := Ascii.eqb c "j" || Ascii.eqb c "J".
Definition is_dot (c : ascii) : bool := Ascii.eqb c ".".

(** The exponent of a literal, [e] or [E], an optional sign and digits:
    its value and the rest of the input; [None] when it is malformed. *)
Definition lex_exponent (s : string) : option (Z * string) :=
  let body := tail s in
  let '(sign, body) :=
    match body with
    | String "+" b => (1, b)
    | String "-" b => (- 1, b)
    | _ => (1, body)
    end in
  match span is_digit body with
  | (EmptyString, _) => None
  | (ds, rest) => Some (sign * Z_of_digits 0 ds, rest)
  end.

(** The decimal number at the head of [s]: whether it has a point or an
    exponent, its integer part as written, and [digits] and [exp10] with
    value [digits * 10 ^ exp10].  [None] when there is no number or it is
    malformed. *)
Definition scan_number (s : string) : option (bool * string * Z * Z * string) :=
  let '(ip, r1) := span is_digit s in
  let '(has_dot, fp, r2) :=
    if starts_with is_dot r1
    then let '(fp, r2) := span is_digit (tail r1) in (true, fp, r2)
    else (false, EmptyString, r1) in
  match ip ++ fp with
  | EmptyString => None
  | ds =>
      let mant := Z_of_digits 0 ds in
      let shift := Z.of_nat (String.length fp) in
      if starts_with is_e r2 then
        match lex_exponent r2 with
        | Some (e, r3) => Some (true, ip, mant, e - shift, r3)
        | None => None
        end
      else Some (has_dot, ip, mant, - shift, r2)
  end.

(** A number literal at the head of [s]: an integer, a float, or either
    followed by [j].  An integer literal has no leading zero unless it is
    zero, and at most 4300 digits; a literal is not followed by a letter or
    a digit. *)
Definition lex_number (s : string) : option (token * string) :=
  match scan_number s with
  | None => None
  | Some (is_float, ip, mant, exp10, r3) =>
      let '(imag, r4) :=
        if starts_with is_j r3 then (true, tail r3) else (false, r3) in
      if starts_with is_letter r4 || starts_with is_digit r4 then None
      else if imag then Some (TImag (of_decimal mant exp10), r4)
      else if is_float then Some (TFloat (of_decimal mant exp10), r4)
      else
        if (4300 <? String.length ip)%nat then None
        else
          match ip with
          | String "0" (String _ _) =>
              if all_zero ip then Some (TInt 0, r4) else None
          | _ => Some (TInt mant, r4)
          end
  end.

(** [float(s)] for a string holding a signed decimal number (the strings
    produced by [str] on an [int] or a finite [float]). *)
Definition float_of_str (s : string) : comp float :=
  let '(negative, body) :=
    match s with
    | String "-" b => (true, b)
    | String "+" b => (false, b)
    | _ => (false, s)
    end in
  match scan_number body with
  | Some (_, _, mant, exp10, EmptyString) =>
      let x := of_decimal mant exp10 in
      Ret (if negative then neg x else x)
  | _ =>
      match body with
      | "inf" => Ret (if negative then neg inf else inf)
      | "nan" => Ret nan
      | _ => raise ValueError ("could not convert string to float: '" ++ s ++ "'")
      end
  end.

Definition keywords : list string :=
  ["False"; "None"; "True"; "and"; "as"; "assert"; "async"; "await";
   "break"; "class"; "continue"; "def"; "del"; "elif"; "else"; "except";
   "finally"; "for"; "from"; "global"; "if"; "import"; "in"; "is";
   "lambda"; "nonlocal"; "not"; "or"; "pass"; "raise"; "return"; "try";
   "while"; "with"; "yield"].

Definition is_keyword (id : string) : bool :=
  existsb (String.eqb id) keywords.

Definition is_ident_char (c : ascii) : bool := is_letter c || is_digit c.

Fixpoint lex (fuel : nat) (s : string) : option (list token) :=
  match fuel with
  | O => None
  | S fuel' =>
      let emit t rest :=
        match lex fuel' rest with
        | Some ts => Some (t :: ts)
        | None => None
        end in
      match s with
      | EmptyString => Some []
      | String c s' =>
          if is_space c then lex fuel' s'
          else if is_digit c || (is_dot c && starts_with is_digit s') then
            match lex_number s with
            | Some (t, rest) => emit t rest
            | None => None
            end
          else if is_letter c then
            let '(id, rest) := span is_ident_char s in
            if is_keyword id then None else emit (TName id) rest
          else
            match c, s' with
            | "+"%char, _ => emit TPlus s'
            | "-"%char, _ => emit TMinus s'
            | "*"%char, String "*" s'' => emit TDoubleStar s''
            | "*"%char, _ => emit TStar s'
            | "/"%char, String "/" s'' => emit TDoubleSlash s''
            | "/"%char, _ => emit TSlash s'
            | "%"%char, _ => emit TPercent s'
            | "("%char, _ => emit TLParen s'
            | ")"%char, _ => emit TRParen s'
            | ","%char, _ => emit TComma s'
            | _, _ => None
            end
      end
  end.

Definition tokenize (s : string) : option (list token) :=
  lex (S (String.length s)) s.

(** ** Abstract syntax (the node names of Python's [ast] module) *)

#[local] Set Warnings "-register-all".

Inductive unaryop : Type := UAdd | USub.

Inductive operator : Type := Add | Sub | Mult | Div | FloorDiv | Mod | Pow.

Inductive expr : Type :=
| Constant (v : value)
| Name (id : string)
| UnaryOp (op : unaryop) (operand : expr)
| BinOp (left : expr) (op : operator) (right : expr)
| Call (func : expr) (args : list expr).

(** ** The parser

    One function per level of the grammar, from the loosest to the
    tightest:
    - [sum]: [term (('+' | '-') term)*], left-associative;
    - [term]: [factor (('*' | '/' | '//' | '%') factor)*], left-associative;
    - [factor]: [('+' | '-') factor | power];
    - [power]: [primary ['**' factor]], so [**] associates to the right and
      binds tighter than a unary operator on its left;
    - [primary]: [atom ('(' arguments ')')*];
    - [atom]: a literal, a name or a parenthesised [sum]. *)

Definition parser (A : Type) : Type := list token -> option (A * list token).

Definition sum_op (t : token) : option operator :=
  match t with TPlus => Some Add | TMinus => Some Sub | _ => None end.

Definition term_op (t : token) : option operator :=
  match t with
  | TStar => Some Mult | TSlash => Some Div
  | TDoubleSlash => Some FloorDiv | TPercent => Some Mod
  | _ => None
  end.

Fixpoint parse_sum (fuel : nat) : parser expr :=
  fun ts =>
    match fuel with
    | O => None
    | S n =>
        match parse_term n ts with
        | Some (l, rest) => sum_rest n l rest
        | None => None
        end
    end
with sum_rest (fuel : nat) (acc : expr) : parser expr :=
  fun ts =>
    match fuel with
    | O => None
    | S n =>
        match ts with
        | t :: rest =>
            match sum_op t with
            | Some op =>
                match parse_term n rest with
                | Some (r, rest') => sum_rest n (BinOp acc op r) rest'
                | None => None
                end
            | None => Some (acc, ts)
            end
        | [] => Some (acc, ts)
        end
    end
with parse_term (fuel : nat) : parser expr :=
  fun ts =>
    match fuel with
    | O => None
    | S n =>
        match parse_factor n ts with
        | Some (l, rest) => term_rest n l rest
        | None => None
        end
    end
with term_rest (fuel : nat) (acc : expr) : parser expr :=
  fun ts =>
    match fuel with
    | O => None
    | S n =>
        match ts with
        | t :: rest =>
            match term_op t with
            | Some op =>
                match parse_factor n rest with
                | Some (r, rest') => term_rest n (BinOp acc op r) rest'
                | None => None
                end
            | None => Some (acc, ts)
            end
        | [] => Some (acc, ts)
        end
    end
with parse_factor (fuel : nat) : parser expr :=
  fun ts =>
    match fuel with
    | O => None
    | S n =>
        match ts with
        | TPlus :: rest =>
            match parse_factor n rest with
            | Some (e, rest') => Some (UnaryOp UAdd e, rest')
            | None => None
            end
        | TMinus :: rest =>
            match parse_factor n rest with
            | Some (e, rest') => Some (UnaryOp USub e, rest')
            | None => None
            end
        | _ => parse_power n ts
        end
    end
with parse_power (fuel : nat) : parser expr :=
  fun ts =>
    match fuel with
    | O => None
    | S n =>
        match parse_primary n ts with
        | Some (b, TDoubleStar :: rest) =>
            match parse_factor n rest with
            | Some (e, rest') => Some (BinOp b Pow e, rest')
            | None => None
            end
        | r => r
        end
    end
with parse_primary (fuel : nat) : parser expr :=
  fun ts =>
    match fuel with
    | O => None
    | S n =>
        match parse_atom n ts with
        | Some (a, rest) => trailers n a rest
        | None => None
        end
    end
with trailers (fuel : nat) (acc : expr) : parser expr :=
  fun ts =>
    match fuel with
    | O => None
    | S n =>
        match ts with
        | TLParen :: rest =>
            match parse_args n rest with
            | Some (args, rest') => trailers n (Call acc args) rest'
            | None => None
            end
        | _ => Some (acc, ts)
        end
    end
with parse_atom (fuel : nat) : parser expr :=
  fun ts =>
    match fuel with
    | O => None
    | S n =>
        match ts with
        | TInt k :: rest => Some (Constant (VInt k), rest)
        | TFloat x :: rest => Some (Constant (VFloat x), rest)
        | TImag x :: rest => Some (Constant (VComplex zero x), rest)
        | TName id :: rest => Some (Name id, rest)
        | TLParen :: rest =>
            match parse_sum n rest with
            | Some (e, TRParen :: rest') => Some (e, rest')
            | _ => None
            end
        | _ => None
        end
    end
with parse_args (fuel : nat) : parser (list expr) :=
  fun ts =>
    match fuel with
    | O => None
    | S n =>
        match ts with
        | TRParen :: rest => Some ([], rest)
        | _ =>
            match parse_sum n ts with
            | Some (e, TComma :: rest) =>
                match parse_args n rest with
                | Some (es, rest') => Some (e :: es, rest')
                | None => None
                end
            | Some (e, TRParen :: rest) => Some ([e], rest)
            | _ => None
            end
        end
    end.

(** A whole expression: the tokens must be used up. *)
Definition parse_tokens (ts : list token) : option expr :=
  match parse_sum (10 * List.length ts + 10) ts with
  | Some (e, []) => Some e
  | _ => None
  end.

(** The tokenizer allows 200 levels of open parentheses. *)
Fixpoint nesting_ok (depth : nat) (ts : list token) : bool :=
  match ts with
  | [] => true
  | TLParen :: ts' => (depth <? 200)%nat && nesting_ok (S depth) ts'
  | TRParen :: ts' => nesting_ok (Nat.pred depth) ts'
  | _ :: ts' => nesting_ok depth ts'
  end.

Definition parse (s : string) : option expr :=
  match tokenize s with
  | Some ts => if nesting_ok 0 ts then parse_tokens ts else None
  | None => None
  end.

(** * Arithmetic on Python numbers *)

Definition math_pi : float := of_decimal 3141592653589793 (- 15).
Definition math_e : float := of_decimal 2718281828459045 (- 15).
Definition math_tau : float := of_decimal 6283185307179586 (- 15).

(** [type(v).__name__], as it appears in the messages of [TypeError]. *)
Definition type_name (v : value) : string :=
  match v with
  | VInt _ => "int"
  | VFloat _ => "float"
  | VComplex _ _ => "complex"
  | VFun (lambda_cbrt | lambda_real | lambda_imag | lambda_conjugate) =>
      "function"
  | VFun builtin_complex => "type"
  | VFun _ => "builtin_function_or_method"
  | VDict => "dict"
  end.

Definition op_symbol (op : operator) : string :=
  match op with
  | Add => "+" | Sub => "-" | Mult => "*" | Div => "/"
  | FloorDiv => "//" | Mod => "%" | Pow => "** or pow()"
  end.

Definition unsupported {A : Type} (op : operator) (a b : value) : comp A :=
  raise TypeError
    ("unsupported operand type(s) for " ++ op_symbol op ++ ": '"
     ++ type_name a ++ "' and '" ++ type_name b ++ "'").

(** A finite float that is an integer ([x == floor(x)]), and one that is an
    odd integer ([fmod(fabs(x), 2.0) == 1.0]). *)
Definition is_integral (x : float) : bool :=
  match x with
  | S754_zero _ => true
  | S754_finite _ m e => (0 <=? e) || (Zpos m mod 2 ^ (- e) =? 0)
  | _ => false
  end.

Definition is_odd_integer (x : float) : bool :=
  match x with
  | S754_finite _ m e =>
      if 0 <=? e then (e =? 0) && Z.odd (Zpos m)
      else (Zpos m mod 2 ^ (- e) =? 0) && Z.odd (Zpos m / 2 ^ (- e))
  | _ => false
  end.

(** The cases of [hypot] and [atan2] fixed by Annex F of the C standard are
    computed; the others go to the mathematics library. *)
Definition c99_hypot (x y : float) : comp float :=
  if is_inf x || is_inf y then Ret inf
  else if is_nan x || is_nan y then Ret nan
  else if is_zero y then Ret (abs x)
  else if is_zero x then Ret (abs y)
  else libm libm_hypot [x; y].

Definition c99_atan2 (y x : float) : comp float :=
  if is_zero y && negb (is_nan x) then
    if signbit x then Ret (copysign math_pi y) else Ret y
  else libm libm_atan2 [y; x].

(** ** Complex power ([_Py_c_pow] and the checks of [complex_pow]) *)

Definition c_pow (are aim bre bim : float) : comp value :=
  if is_zero bre && is_zero bim then Ret (VComplex one zero)
  else if is_zero are && is_zero aim then
    if negb (is_zero bim) || ltb bre zero
    then raise ZeroDivisionError "0.0 to a negative or complex power"
    else Ret (VComplex zero zero)
  else
    vabs <- c99_hypot are aim ;;
    len <- libm libm_pow [vabs; bre] ;;
    at_ <- c99_atan2 aim are ;;
    let phase := mul at_ bre in
    lp <- (if is_zero bim then Ret (len, phase)
           else
             ex <- libm libm_exp [mul at_ bim] ;;
             lg <- libm libm_log [vabs] ;;
             Ret (div len ex, add phase (mul bim lg))) ;;
    let '(len, phase) := lp in
    co <- libm libm_cos [phase] ;;
    si <- libm libm_sin [phase] ;;
    let re := mul len co in
    let im := mul len si in
    if is_inf re || is_inf im
    then raise OverflowError "complex exponentiation"
    else Ret (VComplex re im).

(** [complex.__pow__]: an integral exponent of magnitude at most 100 takes
    the repeated-multiplication path of [c_powi], which is not modelled. *)
Definition complex_pow (are aim bre bim : float) : comp value :=
  if is_zero bim && is_integral bre && leb (abs bre) (of_Z 100)
  then Beyond
  else c_pow are aim bre bim.

(** ** Float power ([float_pow]) *)

Definition float_pow (iv iw : float) : comp value :=
  if is_zero iw then Ret (VFloat one)
  else if is_nan iv then Ret (VFloat iv)
  else if is_nan iw then Ret (VFloat (if eqb iv one then one else iw))
  else if is_inf iw then
    let iv := abs iv in
    if eqb iv one then Ret (VFloat one)
    else if Bool.eqb (ltb zero iw) (ltb one iv) then Ret (VFloat (abs iw))
    else Ret (VFloat zero)
  else if is_inf iv then
    let odd := is_odd_integer iw in
    if ltb zero iw then Ret (VFloat (if odd then iv else abs iv))
    else Ret (VFloat (if odd then copysign zero iv else zero))
  else if is_zero iv then
    if ltb iw zero
    then raise ZeroDivisionError "0.0 cannot be raised to a negative power"
    else Ret (VFloat (if is_odd_integer iw then iv else zero))
  else if ltb iv zero && negb (is_integral iw) then
    complex_pow iv zero iw zero
  else
    let negate := ltb iv zero && is_odd_integer iw in
    let iv := abs iv in
    if eqb iv one then Ret (VFloat (if negate then neg one else one))
    else
      ix <- libm libm_pow [iv; iw] ;;
      if is_inf ix
      then raise OverflowError "(34, 'Numerical result out of range')"
      else Ret (VFloat (if negate then neg ix else ix)).

(** ** Binary operators *)

Definition int_op (op : operator) (x y : Z) : comp value :=
  match op with
  | Add => Ret (VInt (x + y))
  | Sub => Ret (VInt (x - y))
  | Mult => Ret (VInt (x * y))
  | Div =>
      if y =? 0 then raise ZeroDivisionError "division by zero"
      else
        let q := of_ratio (x * Z.sgn y) (Z.abs y) in
        if is_inf q
        then raise OverflowError "integer division result too large for a float"
        else Ret (VFloat q)
  | FloorDiv =>
      if y =? 0
      then raise ZeroDivisionError "integer division or modulo by zero"
      else Ret (VInt (x / y))
  | Mod =>
      if y =? 0
      then raise ZeroDivisionError "integer division or modulo by zero"
      else Ret (VInt (x mod y))
  | Pow =>
      if 0 <=? y then Ret (VInt (x ^ y))
      else
        a <- float_of_int x ;;
        b <- float_of_int y ;;
        float_pow a b
  end.

(** Floor division and modulo of floats by a non-zero divisor go through
    [fmod]; they are not modelled. *)
Definition float_op (op : operator) (x y : float) : comp value :=
  match op with
  | Add => Ret (VFloat (add x y))
  | Sub => Ret (VFloat (sub x y))
  | Mult => Ret (VFloat (mul x y))
  | Div =>
      if is_zero y then raise ZeroDivisionError "float division by zero"
      else Ret (VFloat (div x y))
  | FloorDiv =>
      if is_zero y then raise ZeroDivisionError "float divmod()"
      else Beyond
  | Mod =>
      if is_zero y then raise ZeroDivisionError "float modulo"
      else Beyond
  | Pow => float_pow x y
  end.

(** [_Py_c_quot]. *)
Definition c_quot (are aim bre bim : float) : comp value :=
  let abs_breal := abs bre in
  let abs_bimag := abs bim in
  if leb abs_bimag abs_breal then
    if is_zero abs_breal
    then raise ZeroDivisionError "complex division by zero"
    else
      let ratio := div bim bre in
      let denom := add bre (mul bim ratio) in
      Ret (VComplex (div (add are (mul aim ratio)) denom)
                    (div (sub aim (mul are ratio)) denom))
  else if leb abs_breal abs_bimag then
    let ratio := div bre bim in
    let denom := add (mul bre ratio) bim in
    Ret (VComplex (div (add (mul are ratio) aim) denom)
                  (div (sub (mul aim ratio) are) denom))
  else Ret (VComplex nan nan).

Definition complex_op (op : operator) (a b : value) (are aim bre bim : float)
  : comp value :=
  match op with
  | Add => Ret (VComplex (add are bre) (add aim bim))
  | Sub => Ret (VComplex (sub are bre) (sub aim bim))
  | Mult =>
      Ret (VComplex (sub (mul are bre) (mul aim bim))
                    (add (mul are bim) (mul aim bre)))
  | Div => c_quot are aim bre bim
  | FloorDiv | Mod => unsupported op a b
  | Pow => complex_pow are aim bre bim
  end.

(** The numeric tower: [int] is converted to [float] and [float] to
    [complex] when the other operand requires it. *)
Definition to_complex (v : value) : comp (float * float) :=
  match v with
  | VInt n => x <- float_of_int n ;; Ret (x, zero)
  | VFloat x => Ret (x, zero)
  | VComplex re im => Ret (re, im)
  | _ => Beyond
  end.

Definition is_number (v : value) : bool :=
  match v with VInt _ | VFloat _ | VComplex _ _ => true | _ => false end.

Definition binary (op : operator) (a b : value) : comp value :=
  match a, b with
  | VInt x, VInt y => int_op op x y
  | VInt x, VFloat y => x' <- float_of_int x ;; float_op op x' y
  | VFloat x, VInt y => y' <- float_of_int y ;; float_op op x y'
  | VFloat x, VFloat y => float_op op x y
  | _, _ =>
      if is_number a && is_number b then
        x <- to_complex a ;;
        y <- to_complex b ;;
        complex_op op a b (fst x) (snd x) (fst y) (snd y)
      else unsupported op a b
  end.

Definition unary (op : unaryop) (v : value) : comp value :=
  match op, v with
  | UAdd, (VInt _ | VFloat _ | VComplex _ _) => Ret v
  | USub, VInt n => Ret (VInt (- n))
  | USub, VFloat x => Ret (VFloat (neg x))
  | USub, VComplex re im => Ret (VComplex (neg re) (neg im))
  | UAdd, _ =>
      raise TypeError ("bad operand type for unary +: '" ++ type_name v ++ "'")
  | USub, _ =>
      raise TypeError ("bad operand type for unary -: '" ++ type_name v ++ "'")
  end.

(** * The functions of the namespace *)

(** [PyFloat_AsDouble] on an argument of a [math] function. *)
Definition as_double (v : value) : comp float :=
  match v with
  | VInt n => float_of_int n
  | VFloat x => Ret x
  | VComplex _ _ => raise TypeError "must be real number, not complex"
  | _ => raise TypeError ("must be real number, not " ++ type_name v)
  end.

(** The checks made on the result of a one-argument [math] function
    ([math_1]): a NaN from a number is a domain error, an infinity from a
    finite number a range or domain error. *)
Definition math_check (can_overflow : bool) (x r : float) : comp value :=
  if is_nan r && negb (is_nan x) then raise ValueError "math domain error"
  else if is_inf r && is_finite x then
    if can_overflow then raise OverflowError "math range error"
    else raise ValueError "math domain error"
  else Ret (VFloat r).

Definition math_1 (f : libm_fn) (can_overflow : bool) (v : value)
  : comp value :=
  x <- as_double v ;;
  r <- libm f [x] ;;
  math_check can_overflow x r.

(** [m_log], [m_log10], [m_log2]: the logarithm of a positive number comes
    from the library; zero gives minus infinity and a negative number a
    NaN, both turned into a domain error by [math_check]. *)
Definition m_log (f : libm_fn) (x : float) : comp float :=
  if is_finite x then
    if ltb zero x then libm f [x]
    else if is_zero x then Ret (neg inf)
    else Ret nan
  else if is_nan x then Ret x
  else if ltb zero x then Ret x
  else Ret nan.

(** [loghelper]: an integer argument must be positive; one too large for a
    float takes a path that is not modelled. *)
Definition loghelper (f : libm_fn) (v : value) : comp value :=
  match v with
  | VInt n =>
      if n <=? 0 then raise ValueError "math domain error"
      else if fits_double n
      then r <- m_log f (of_Z n) ;; math_check false (of_Z n) r
      else Beyond
  | _ =>
      x <- as_double v ;;
      r <- m_log f x ;;
      math_check false x r
  end.

(** ** [cmath.sqrt] *)

Definition DBL_MIN : float := S754_finite false (2 ^ 52) (- 1074).

Definition ldexp (x : float) (e : Z) : float := SFldexp prec emax x e.

(** The table of special values of [cmath.sqrt], for an argument with an
    infinite or NaN part. *)
Definition sqrt_special (re im : float) : value :=
  if is_inf im then VComplex inf im
  else if is_nan re then VComplex nan nan
  else if is_inf re then
    if signbit re then
      if is_nan im then VComplex nan inf
      else VComplex zero (copysign inf im)
    else
      if is_nan im then VComplex inf nan
      else VComplex inf (copysign zero im)
  else VComplex nan nan.

Definition cmath_sqrt_impl (re im : float) : comp value :=
  if negb (is_finite re && is_finite im) then Ret (sqrt_special re im)
  else if is_zero re && is_zero im then Ret (VComplex zero im)
  else
    let ax := abs re in
    let ay := abs im in
    s <- (if ltb ax DBL_MIN && ltb ay DBL_MIN then
            let ax := ldexp ax 53 in
            h <- c99_hypot ax (ldexp ay 53) ;;
            Ret (ldexp (sqrt (add ax h)) (- 27))
          else
            let ax := div ax (of_Z 8) in
            h <- c99_hypot ax (div ay (of_Z 8)) ;;
            Ret (mul (of_Z 2) (sqrt (add ax h)))) ;;
    let d := div ay (mul (of_Z 2) s) in
    if leb zero re then Ret (VComplex s (copysign d im))
    else Ret (VComplex d (copysign s im)).

(** ** The other functions *)

Definition radToDeg : float := div (of_Z 180) math_pi.
Definition degToRad : float := div math_pi (of_Z 180).

Fixpoint fact (n : nat) : Z :=
  match n with
  | O => 1
  | S k => Z.of_nat n * fact k
  end.

Definition to_integer (conv : float -> option Z) (v : value) : comp value :=
  match v with
  | VInt n => Ret (VInt n)
  | VFloat x => n <- int_of_float conv x ;; Ret (VInt n)
  | _ => Beyond
  end.

Definition complex_abs (re im : float) : comp value :=
  h <- c99_hypot re im ;;
  if is_inf h && is_finite re && is_finite im
  then raise OverflowError "absolute value too large"
  else Ret (VFloat h).

(** A call of a function object.  The calls left out of the model (a wrong
    number of arguments, the optional arguments of [round], [pow] and
    [complex], [atan2], [phase], [polar], [rect], and arguments that are
    not numbers where the message depends on the host) are [Beyond]. *)
Definition apply_builtin (f : builtin) (args : list value) : comp value :=
  match f, args with
  | math_sin, [v] => math_1 libm_sin false v
  | math_cos, [v] => math_1 libm_cos false v
  | math_tan, [v] => math_1 libm_tan false v
  | math_asin, [v] => math_1 libm_asin false v
  | math_acos, [v] => math_1 libm_acos false v
  | math_atan, [v] => math_1 libm_atan false v
  | math_sinh, [v] => math_1 libm_sinh true v
  | math_cosh, [v] => math_1 libm_cosh true v
  | math_tanh, [v] => math_1 libm_tanh false v
  | math_asinh, [v] => math_1 libm_asinh false v
  | math_acosh, [v] => math_1 libm_acosh false v
  | math_atanh, [v] => math_1 libm_atanh false v
  | math_exp, [v] => math_1 libm_exp true v
  | math_log, [v] => loghelper libm_log v
  | math_log10, [v] => loghelper libm_log10 v
  | math_log2, [v] => loghelper libm_log2 v
  | cmath_sqrt, [v] =>
      z <- to_complex v ;; cmath_sqrt_impl (fst z) (snd z)
  | lambda_cbrt, [x] =>
      third <- binary Div (VInt 1) (VInt 3) ;; binary Pow x third
  | builtin_pow, [a; b] => binary Pow a b
  | builtin_abs, [VInt n] => Ret (VInt (Z.abs n))
  | builtin_abs, [VFloat x] => Ret (VFloat (abs x))
  | builtin_abs, [VComplex re im] => complex_abs re im
  | math_ceil, [v] => to_integer ceil v
  | math_floor, [v] => to_integer floor v
  | math_trunc, [v] => to_integer trunc v
  | builtin_round, [v] => to_integer round_half_even v
  | math_degrees, [v] => x <- as_double v ;; Ret (VFloat (mul x radToDeg))
  | math_radians, [v] => x <- as_double v ;; Ret (VFloat (mul x degToRad))
  | math_factorial, [VInt n] =>
      if n <? 0
      then raise ValueError "factorial() not defined for negative values"
      else if n <? 2 ^ 63 then Ret (VInt (fact (Z.to_nat n)))
      else Beyond
  | math_gcd, [VInt a; VInt b] => Ret (VInt (Z.gcd a b))
  | math_lcm, [VInt a; VInt b] =>
      if Z.gcd a b =? 0 then Beyond
      else Ret (VInt (Z.abs (a * b) / Z.gcd a b))
  | builtin_complex, [] => Ret (VComplex zero zero)
  | builtin_complex, [v] => z <- to_complex v ;; Ret (VComplex (fst z) (snd z))
  | builtin_complex, [(VInt _ | VFloat _) as a; (VInt _ | VFloat _) as b] =>
      re <- as_double a ;; im <- as_double b ;; Ret (VComplex re im)
  | lambda_real, [VComplex re _] => Ret (VFloat re)
  | lambda_real, [x] => Ret x
  | lambda_imag, [VComplex _ im] => Ret (VFloat im)
  | lambda_imag, [_] => Ret (VInt 0)
  | lambda_conjugate, [VComplex re im] => Ret (VComplex re (neg im))
  | lambda_conjugate, [x] => Ret x
  | _, _ => Beyond
  end.

Definition call (f : value) (args : list value) : comp value :=
  match f with
  | VFun b => apply_builtin b args
  | _ => raise TypeError ("'" ++ type_name f ++ "' object is not callable")
  end.

(** * The namespace [safe_dict] (lines 53-82) *)

Definition safe_dict : list (string * value) :=
  [ ("sin", VFun math_sin); ("cos", VFun math_cos); ("tan", VFun math_tan);
    ("asin", VFun math_asin); ("acos", VFun math_acos);
    ("atan", VFun math_atan);
    ("atan2", VFun math_atan2);
    ("sinh", VFun math_sinh); ("cosh", VFun math_cosh);
    ("tanh", VFun math_tanh);
    ("asinh", VFun math_asinh); ("acosh", VFun math_acosh);
    ("atanh", VFun math_atanh);
    ("log", VFun math_log); ("log10", VFun math_log10);
    ("log2", VFun math_log2);
    ("ln", VFun math_log);
    ("exp", VFun math_exp); ("sqrt", VFun cmath_sqrt);
    ("cbrt", VFun lambda_cbrt);
    ("pow", VFun builtin_pow); ("abs", VFun builtin_abs);
    ("ceil", VFun math_ceil); ("floor", VFun math_floor);
    ("trunc", VFun math_trunc);
    ("round", VFun builtin_round);
    ("degrees", VFun math_degrees); ("radians", VFun math_radians);
    ("factorial", VFun math_factorial);
    ("gcd", VFun math_gcd); ("lcm", VFun math_lcm);
    ("pi", VFloat math_pi); ("e", VFloat math_e); ("tau", VFloat math_tau);
    ("inf", VFloat inf); ("nan", VFloat nan);
    ("complex", VFun builtin_complex); ("real", VFun lambda_real);
    ("imag", VFun lambda_imag);
    ("conjugate", VFun lambda_conjugate);
    ("phase", VFun cmath_phase); ("polar", VFun cmath_polar);
    ("rect", VFun cmath_rect);
    ("__builtins__", VDict) ].

Fixpoint lookup (id : string) (d : list (string * value)) : option value :=
  match d with
  | [] => None
  | (k, v) :: d' => if String.eqb id k then Some v else lookup id d'
  end.

(** * Evaluation *)

(** A name is looked up in the namespace, then in its [__builtins__],
    which is empty.  The operands of an operator are evaluated from left to
    right; the function of a call is evaluated before its arguments. *)
Fixpoint eval_args (ev : expr -> comp value) (args : list expr)
  : comp (list value) :=
  match args with
  | [] => Ret []
  | a :: args' =>
      v <- ev a ;;
      vs <- eval_args ev args' ;;
      Ret (v :: vs)
  end.

Fixpoint eval_expr (globals : list (string * value)) (e : expr) : comp value :=
  match e with
  | Constant v => Ret v
  | Name id =>
      match lookup id globals with
      | Some v => Ret v
      | None => raise NameError ("name '" ++ id ++ "' is not defined")
      end
  | UnaryOp op a => v <- eval_expr globals a ;; unary op v
  | BinOp l op r =>
      a <- eval_expr globals l ;;
      b <- eval_expr globals r ;;
      binary op a b
  | Call f args =>
      fv <- eval_expr globals f ;;
      vs <- eval_args (eval_expr globals) args ;;
      call fv vs
  end.

(** [eval(expression, globals)] on the fragment. *)
Definition eval (expression : string) (globals : list (string * value))
  : comp value :=
  match parse expression with
  | Some e => eval_expr globals e
  | None => Beyond
  end.

(** * The formatter and the handlers *)

(** The default limit of [sys.set_int_max_str_digits]: an integer of more
    than 4300 digits is not converted. *)
Definition int_max_str : Z := Eval vm_compute in 10 ^ 4300.

(** [f.__name__] for the functions written in C. *)
Definition builtin_name (f : builtin) : option string :=
  match f with
  | math_sin => Some "sin" | math_cos => Some "cos" | math_tan => Some "tan"
  | math_asin => Some "asin" | math_acos => Some "acos"
  | math_atan => Some "atan" | math_atan2 => Some "atan2"
  | math_sinh => Some "sinh" | math_cosh => Some "cosh"
  | math_tanh => Some "tanh"
  | math_asinh => Some "asinh" | math_acosh => Some "acosh"
  | math_atanh => Some "atanh"
  | math_log => Some "log" | math_log10 => Some "log10"
  | math_log2 => Some "log2"
  | math_exp => Some "exp" | cmath_sqrt => Some "sqrt"
  | builtin_pow => Some "pow" | builtin_abs => Some "abs"
  | math_ceil => Some "ceil" | math_floor => Some "floor"
  | math_trunc => Some "trunc" | builtin_round => Some "round"
  | math_degrees => Some "degrees" | math_radians => Some "radians"
  | math_factorial => Some "factorial" | math_gcd => Some "gcd"
  | cmath_phase => Some "phase" | cmath_polar => Some "polar"
  | cmath_rect => Some "rect"
  | _ => None
  end.

(** [str] of a value.  An integer beyond the limit, a lambda (whose text
    holds an address) and [lcm] (a lambda on old interpreters) depend on
    the host. *)
Definition str (v : value) : comp string :=
  match v with
  | VInt n => if Z.abs n <? int_max_str then Ret (str_int n) else Beyond
  | VFloat x => Ret (repr x)
  | VFun builtin_complex => Ret "<class 'complex'>"
  | VFun f =>
      match builtin_name f with
      | Some name => Ret ("<built-in function " ++ name ++ ">")
      | None => Beyond
      end
  | VDict => Ret "{}"
  | VComplex _ _ => Beyond
  end.

Definition eps : float := of_decimal 1 (- 10).

(** [abs(x - round(x)) < 1e-10]. *)
Definition near_integer (x : float) : comp bool :=
  n <- py_round x ;;
  d <- float_sub_int x n ;;
  Ret (ltb (abs d) eps).

(** Lines 95-100 and 115-120: the rendering of a real value. *)
Definition format_real (x : float) : comp string :=
  if ltb (abs x) eps then Ret "0"
  else
    near <- near_integer x ;;
    if near then n <- py_round x ;; str (VInt n)
    else Ret (repr x).

(** Lines 102-103: [str(int(x))] when [x] is near an integer, [str(x)]
    otherwise. *)
Definition part_str (x : float) : comp string :=
  near <- near_integer x ;;
  if near then n <- py_int x ;; str (VInt n)
  else Ret (repr x).

(** Lines 92-122. *)
Definition format_result (result : value) : comp string :=
  match result with
  | VComplex re im =>
      if ltb (abs im) eps then format_real re
      else
        real_str <- part_str re ;;
        imag_str <- part_str im ;;
        if eqb re zero then
          if negb (eqb im one) then Ret (imag_str ++ "j")
          else if eqb im one then Ret "j"
          else Ret "-j"
        else
          imag_part <-
            (if leb zero im then
               if negb (eqb im one) then Ret (" + " ++ imag_str ++ "j")
               else Ret " + j"
             else
               if negb (eqb im (neg one)) then
                 x <- float_of_str imag_str ;;
                 Ret (" - " ++ repr (abs x) ++ "j")
               else Ret " - j") ;;
          Ret (real_str ++ imag_part)
  | VFloat x => format_real x
  | _ => str result
  end.

(** Lines 124-135. *)
Definition handler (e : exn) : string :=
  match exn_cls e with
  | ZeroDivisionError => "Error: Division by zero"
  | ValueError => "Error: Invalid mathematical operation - " ++ exn_msg e
  | OverflowError => "Error: Result too large to compute"
  | TypeError => "Error: Invalid expression type - " ++ exn_msg e
  | SyntaxError => "Error: Invalid mathematical expression syntax"
  | NameError | OtherException => "Error: " ++ exn_msg e
  end.

Definition normalize (expression : string) : string :=
  replace "mod" "%" (replace "^" "**" expression).

(** The body of the [try] statement, given the outcome of [eval]. *)
Definition calculator_body (evaluation : comp value) : comp string :=
  try_except (result <- evaluation ;; format_result result)
             (fun e => Ret (handler e)).

Definition scientific_calculator (expression : string) : comp string :=
  calculator_body (eval (normalize expression) safe_dict).

(** * The fallback of [lcm] (line 68) *)

(** [math.lcm] on two integers ([long_lcm]). *)
Definition long_lcm (a b : Z) : Z :=
  if (a =? 0) || (b =? 0) then 0 else Z.abs (a / Z.gcd a b * b).

(** What [safe_dict] binds to [lcm] on an interpreter without [math.lcm]:
    [lambda a, b: abs(a*b) // math.gcd(a, b)]. *)
Definition lambda_lcm (a b : value) : comp value :=
  p <- binary Mult a b ;;
  n <- apply_builtin builtin_abs [p] ;;
  g <- apply_builtin math_gcd [a; b] ;;
  binary FloorDiv n g.

(** * The tool [generate_qr_code] (lines 137-186) *)

(** ** [base64.b64encode] *)

(** The alphabet of RFC 4648, section 4, and its padding character. *)
Definition table_b2a_base64 : string :=
  "ABCDEFGHIJKLMNOPQRSTUVWXYZabcdefghijklmnopqrstuvwxyz0123456789+/".

Definition BASE64_PAD : ascii := "="%char.

Definition b64_char (n : Z) : ascii :=
  match String.get (Z.to_nat n) table_b2a_base64 with
  | Some c => c
  | None => BASE64_PAD
  end.

Definition byte_val (b : Byte.byte) : Z := Z.of_N (Byte.to_N b).

(** The [i]-th group of six bits, from the right, of a group of 24 bits. *)
Definition sextet (n : Z) (i : Z) : ascii :=
  b64_char (Z.land (Z.shiftr n (6 * i)) 63).

(** Three bytes give four characters; one or two bytes left at the end
    are completed with zero bits and the group is padded with [=]. *)
Fixpoint b64encode (data : list Byte.byte) : string :=
  match data with
  | [] => EmptyString
  | [a] =>
      let n := Z.shiftl (byte_val a) 16 in
      String (sextet n 3)
        (String (sextet n 2)
           (String BASE64_PAD (String BASE64_PAD EmptyString)))
  | [a; b] =>
      let n := Z.shiftl (byte_val a) 16 + Z.shiftl (byte_val b) 8 in
      String (sextet n 3)
        (String (sextet n 2)
           (String (sextet n 1) (String BASE64_PAD EmptyString)))
  | a :: b :: c :: rest =>
      let n := Z.shiftl (byte_val a) 16 + Z.shiftl (byte_val b) 8
               + byte_val c in
      String (sextet n 3)
        (String (sextet n 2)
           (String (sextet n 1) (String (sextet n 0) (b64encode rest))))
  end.

(** ** The package [qrcode] *)

(** The constants of [qrcode.constants]. *)
Inductive error_correct : Type :=
| ERROR_CORRECT_L | ERROR_CORRECT_M | ERROR_CORRECT_Q | ERROR_CORRECT_H.

(** The package is not part of the repository: its operations are
    parameters.  Each one returns ([inr]) or raises ([inl]); those that
    change the [QRCode] object return its new state.  The fields are
    [QRCode(version, error_correction, box_size, border)],
    [qr.add_data(data)], [qr.make(fit)],
    [qr.make_image(fill_color, back_color)], and [img.save(buffer, format)]
    followed by [buffer.getvalue()]. *)
Record qrcode_package : Type := {
  qr_object : Type;
  qr_image : Type;
  QRCode : Z -> error_correct -> Z -> Z -> exn + qr_object;
  add_data : qr_object -> string -> exn + qr_object;
  make : qr_object -> bool -> exn + qr_object;
  make_image : qr_object -> string -> string -> exn + qr_image;
  save : qr_image -> string -> exn + list Byte.byte
}.

(** A call of the package, as a computation. *)
Definition outside {A : Type} (r : exn + A) : comp A :=
  match r with inl e => Raise e | inr a => Ret a end.

(** Lines 153-158. *)
Definition error_levels : list (string * error_correct) :=
  [ ("L", ERROR_CORRECT_L); ("M", ERROR_CORRECT_M);
    ("Q", ERROR_CORRECT_Q); ("H", ERROR_CORRECT_H) ].

Fixpoint level_of (key : string) (d : list (string * error_correct))
  : option error_correct :=
  match d with
  | [] => None
  | (k, v) :: d' => if String.eqb key k then Some v else level_of key d'
  end.

Definition newline : string := String (ascii_of_nat 10) EmptyString.

(** [data[:50]], followed by [...] when [data] is longer. *)
Definition excerpt (data : string) : string :=
  substring 0 50 data
  ++ (if (50 <? String.length data)%nat then "..." else EmptyString).

(** Line 183. *)
Definition success_text (data : string) (png : list Byte.byte) : string :=
  "QR code generated successfully for: '" ++ excerpt data ++ "'" ++ newline
  ++ "Base64 PNG: data:image/png;base64," ++ b64encode png.

(** Line 161. *)
Definition invalid_level_text : string :=
  "Error: Invalid error correction level. Use L, M, Q, or H".

(** Lines 151-186. *)
Definition generate_qr_code (qrcode : qrcode_package)
    (data error_correction : string) (border box_size : Z) : comp string :=
  try_except
    (match level_of error_correction error_levels with
     | None => Ret invalid_level_text
     | Some level =>
         qr <- outside (QRCode qrcode 1 level box_size (Z.max border 4)) ;;
         qr <- outside (add_data qrcode qr data) ;;
         qr <- outside (make qrcode qr true) ;;
         img <- outside (make_image qrcode qr "black" "white") ;;
         png <- outside (save qrcode img "PNG") ;;
         Ret (success_text data png)
     end)
    (fun e => Ret ("Error generating QR code: " ++ exn_msg e)).

(** * Notions used in the statements *)

(** ** The namespace as section 4.1 of the specification lists it *)








(** ** The normalization pass as the specification words it *)

(** Only a standalone [mod], a whole word, becomes [%]. *)
Fixpoint replace_word (fuel : nat) (old new s : string) : string :=
  match fuel with
  | O => s
  | S fuel' =>
      match s with
      | EmptyString => EmptyString
      | String c s' =>
          if is_ident_char c then
            let '(w, rest) := span is_ident_char s in
            (if String.eqb w old then new else w)
            ++ replace_word fuel' old new rest
          else String c (replace_word fuel' old new s')
      end
  end.

Definition normalize_standalone (expression : string) : string :=
  let s := replace "^" "**" expression in
  replace_word (String.length s) "mod" "%" s.

(** ** The rendering of a real value as section 4.3 words it *)

(** A float of the binary64 format: at most 53 bits of mantissa, an
    exponent in range. *)
Definition binary64 (x : float) : bool := valid_binary prec emax x.

(** The integer that [round] returns. *)
Definition nearest_integer (x : float) : Z :=
  match round_half_even x with Some n => n | None => 0 end.




(** ** Divisions by zero and unknown functions *)

Definition zero_divisor (v : value) : bool :=
  match v with
  | VInt n => n =? 0
  | VFloat x => is_zero x
  | VComplex re im => is_zero re && is_zero im
  | _ => false
  end.

Definition fits_float (v : value) : bool :=
  match v with
  | VInt n => fits_double n
  | _ => true
  end.

Definition is_real (v : value) : bool :=
  match v with VInt _ | VFloat _ => true | _ => false end.

(** The dividend converts to the type of the operation: nothing to convert
    between two integers, an integer that fits a float otherwise. *)
Definition converts (a b : value) : bool :=
  match a, b with
  | VInt _, VInt _ => true
  | _, _ => fits_float a
  end.

(** [a op b] is a division that Python carries out: [/] on two numbers,
    [//] or [%] on two real numbers. *)
Definition is_division_of (op : operator) (a b : value) : bool :=
  match op with
  | Div => is_number a && is_number b && converts a b
  | FloorDiv | Mod => is_real a && is_real b && converts a b
  | _ => false
  end.

(** The exponent [1/3] of line 62. *)
Definition third : float := of_ratio 1 3.

Section Hosted.

Variable host : libm_fn -> list float -> float.

Definition evaluates (e : expr) : Prop :=
  exists v, run host (eval_expr safe_dict e) = Returned v.

(** The evaluation of an expression performs a division by zero: it
    reaches a division whose operands have been evaluated and whose
    divisor is zero.  Operands are evaluated from left to right, the
    function of a call before its arguments. *)
Inductive divides_by_zero : expr -> Prop :=
| dz_here l op r a b :
    run host (eval_expr safe_dict l) = Returned a ->
    run host (eval_expr safe_dict r) = Returned b ->
    is_division_of op a b = true ->
    zero_divisor b = true ->
    divides_by_zero (BinOp l op r)
| dz_operand op a :
    divides_by_zero a -> divides_by_zero (UnaryOp op a)
| dz_left l op r :
    divides_by_zero l -> divides_by_zero (BinOp l op r)
| dz_right l op r :
    evaluates l -> divides_by_zero r -> divides_by_zero (BinOp l op r)
| dz_func f args :
    divides_by_zero f -> divides_by_zero (Call f args)
| dz_arg f before a after :
    evaluates f -> Forall evaluates before -> divides_by_zero a ->
    divides_by_zero (Call f (before ++ a :: after)).

Definition raises_zero_division {A : Type} (c : comp A) : Prop :=
  exists msg, run host c = Raised (mk_exn ZeroDivisionError msg).

(** [x ** (1/3)] on the complex branch of the power operator: modulus
    [pow(|x|, 1/3)], argument [pi * (1/3)]. *)
Definition complex_cube_root (x : float) : outcome value :=
  let len := host libm_pow [abs x; third] in
  let phase := mul math_pi third in
  let re := mul len (host libm_cos [phase]) in
  let im := mul len (host libm_sin [phase]) in
  if is_inf re || is_inf im
  then Raised (mk_exn OverflowError "complex exponentiation")
  else Returned (VComplex re im).

End Hosted.

(** The values of the C library at the three points that [cbrt(-8)]
    needs. *)
Definition libm_at_minus_8 (f : libm_fn) (args : list float) : float :=
  match f with
  | libm_pow => of_Z 2
  | libm_cos => of_decimal 5000000000000001 (- 16)
  | libm_sin => of_decimal 8660254037844386 (- 16)
  | _ => nan
  end.


(** ** The standard rendering of an expression tree *)

Definition op_token (op : operator) : token :=
  match op with
  | Add => TPlus | Sub => TMinus
  | Mult => TStar | Div => TSlash | FloorDiv => TDoubleSlash | Mod => TPercent
  | Pow => TDoubleStar
  end.

Definition unary_token (op : unaryop) : token :=
  match op with UAdd => TPlus | USub => TMinus end.

(** Binding strength, from the loosest: additive operators 0,
    multiplicative operators 1, unary operators 2, the power operator 3,
    literals and names 4. *)
Definition op_level (op : operator) : nat :=
  match op with
  | Add | Sub => 0
  | Mult | Div | FloorDiv | Mod => 1
  | Pow => 3
  end.

Definition level (e : expr) : nat :=
  match e with
  | BinOp _ op _ => op_level op
  | UnaryOp _ _ => 2
  | _ => 4
  end.

Definition literal_token (v : value) : option token :=
  match v with
  | VInt n => Some (TInt n)
  | VFloat x => Some (TFloat x)
  | VComplex (S754_zero false) im => Some (TImag im)
  | _ => None
  end.

(** The expressions with no call, whose constants are literals. *)
Fixpoint call_free (e : expr) : bool :=
  match e with
  | Constant v =>
      match literal_token v with Some _ => true | None => false end
  | Name _ => true
  | UnaryOp _ a => call_free a
  | BinOp l _ r => call_free l && call_free r
  | Call _ _ => false
  end.

Definition parens (b : bool) (ts : list token) : list token :=
  if b then (TLParen :: ts ++ [TRParen])%list else ts.

(** The tokens of an expression where an operand of binding strength at
    least [ctx] is expected: parentheses go around a weaker expression and
    nowhere else.  A binary operator takes, on its left, an operand of its
    own strength (the next one for [**]) and, on its right, one of the next
    strength (a unary operand for [**]): standard precedence, with [**]
    associating to the right and the others to the left. *)
Fixpoint unparse (ctx : nat) (e : expr) : list token :=
  parens (level e <? ctx)%nat
    match e with
    | Constant v =>
        match literal_token v with Some t => [t] | None => [] end
    | Name id => [TName id]
    | UnaryOp op a => unary_token op :: unparse 2 a
    | BinOp l op r =>
        match op with
        | Pow => (unparse 4 l ++ TDoubleStar :: unparse 2 r)%list
        | _ =>
            (unparse (op_level op) l
               ++ op_token op :: unparse (S (op_level op)) r)%list
        end
    | Call _ _ => []
    end.

(** The token after an operand of strength [lvl] does not continue it. *)
Definition follows (lvl : nat) (rest : list token) : bool :=
  match rest with
  | [] => true
  | TLParen :: _ => false
  | TDoubleStar :: _ => (3 <? lvl)%nat
  | (TStar | TSlash | TDoubleSlash | TPercent) :: _ => (1 <? lvl)%nat
  | (TPlus | TMinus) :: _ => (0 <? lvl)%nat
  | _ => true
  end.

(** Fuel that the parser needs: ten units for each operator. *)
Fixpoint cost (e : expr) : nat :=
  match e with
  | UnaryOp _ a => cost a + 10
  | BinOp l _ r => cost l + cost r + 10
  | _ => 0
  end.

Definition wrap (e : expr) (ctx : nat) : nat :=
  if (level e <? ctx)%nat then 7 else 0.

(** The length of the chain of operators of strength [lvl] on the left
    spine: the number of turns of the loop [sum_rest] or [term_rest]. *)
Fixpoint chain (lvl : nat) (e : expr) : nat :=
  match e with
  | BinOp l op _ => if (op_level op =? lvl)%nat then S (chain lvl l) else 0
  | _ => 0
  end.

Definition term_from (n : nat) (ts : list token) : option (expr * list token) :=
  match parse_factor n ts with
  | Some (l, rest) => term_rest n l rest
  | None => None
  end.

Definition sum_from (n : nat) (ts : list token) : option (expr * list token) :=
  match parse_term n ts with
  | Some (l, rest) => sum_rest n l rest
  | None => None
  end.

(** What each level of the parser does with the rendering of [e] followed
    by [rest], given fuel for it. *)
Definition parses_primary (e : expr) : Prop :=
  forall n rest,
    (cost e + 2 + wrap e 4 <= n)%nat -> follows 4 rest = true ->
    parse_primary n (unparse 4 e ++ rest)%list = Some (e, rest).

Definition parses_power (e : expr) : Prop :=
  forall n rest,
    (cost e + 3 + wrap e 3 <= n)%nat -> follows 2 rest = true ->
    parse_power n (unparse 3 e ++ rest)%list = Some (e, rest).

Definition parses_factor (e : expr) : Prop :=
  forall n rest,
    (cost e + 4 + wrap e 2 <= n)%nat -> follows 2 rest = true ->
    parse_factor n (unparse 2 e ++ rest)%list = Some (e, rest).

Definition parses_term_chain (e : expr) : Prop :=
  forall n rest,
    (cost e + 4 + wrap e 1 <= n)%nat -> follows 2 rest = true ->
    term_from n (unparse 1 e ++ rest)%list = term_rest (n - chain 1 e) e rest.

Definition parses_sum_chain (e : expr) : Prop :=
  forall n rest,
    (cost e + 5 <= n)%nat -> follows 1 rest = true ->
    sum_from n (unparse 0 e ++ rest)%list = sum_rest (n - chain 0 e) e rest.

Definition parses (e : expr) : Prop :=
  parses_primary e /\ parses_power e /\ parses_factor e
  /\ parses_term_chain e /\ parses_sum_chain e.

(** ** Occurrences of a substring *)

(** [old in s]. *)
Fixpoint occurs (old s : string) : bool :=
  prefix old s
  || match s with
     | EmptyString => false
     | String _ s' => occurs old s'
     end.

(** ** Results with an infinite or NaN part *)

(** The floats of a result are binary64 numbers. *)
Definition binary64_value (v : value) : bool :=
  match v with
  | VFloat x => binary64 x
  | VComplex re im => binary64 re && binary64 im
  | _ => true
  end.

(** The first part of a result, real part first, that is an infinity or a
    NaN; [None] when there is none. *)
Definition non_finite_part (v : value) : option float :=
  match v with
  | VFloat x => if is_finite x then None else Some x
  | VComplex re im =>
      if is_finite re then if is_finite im then None else Some im
      else Some re
  | _ => None
  end.

(** The exception of [round], [int], [math.floor], [math.ceil] and
    [math.trunc] on an infinity or a NaN. *)
Definition round_error (x : float) : exn :=
  if is_nan x
  then mk_exn ValueError "cannot convert float NaN to integer"
  else mk_exn OverflowError "cannot convert float infinity to integer".

(** ** The real cube root *)

Section HostedReal.

Variable host : libm_fn -> list float -> float.

(** [x ** (1/3)] on the real branch of the power operator: exact at zero,
    one and infinity, [pow(x, 1/3)] of the library elsewhere. *)
Definition real_cube_root (x : float) : outcome value :=
  if is_zero x then Returned (VFloat zero)
  else if is_inf x then Returned (VFloat inf)
  else if eqb x one then Returned (VFloat one)
  else
    let r := host libm_pow [x; third] in
    if is_inf r
    then Raised (mk_exn OverflowError "(34, 'Numerical result out of range')")
    else Returned (VFloat r).

End HostedReal.

(** ** Decimal digits *)

(** A sequence of digits that starts with a digit other than zero. *)
Definition leading (d : Decimal.uint) : bool :=
  match d with Decimal.Nil | Decimal.D0 _ => false | _ => true end.

(** ** The package [qrcode] in the statements *)

(** The package with another constructor. *)
Definition with_constructor (qrcode : qrcode_package)
    (ctor : Z -> error_correct -> Z -> Z -> exn + qr_object qrcode)
  : qrcode_package :=
  {| qr_object := qr_object qrcode;
     qr_image := qr_image qrcode;
     QRCode := ctor;
     add_data := add_data qrcode;
     make := make qrcode;
     make_image := make_image qrcode;
     save := save qrcode |}.

(** A package whose image is always the three bytes [QR!]. *)
Definition sample_package : qrcode_package :=
  {| qr_object := unit;
     qr_image := unit;
     QRCode := fun _ _ _ _ => inr tt;
     add_data := fun _ _ => inr tt;
     make := fun _ _ => inr tt;
     make_image := fun _ _ _ => inr tt;
     save := fun _ _ => inr [Byte.x51; Byte.x52; Byte.x21] |}.

(** The base64 alphabet with its padding character. *)
Definition in_alphabet (c : ascii) : bool :=
  Ascii.eqb c BASE64_PAD
  || existsb (Ascii.eqb c) (list_ascii_of_string table_b2a_base64).

Fixpoint all_chars (p : ascii -> bool) (s : string) : bool :=
  match s with
  | EmptyString => true
  | String c s' => p c && all_chars p s'
  end.

(** * Lemmas on computations *)

Lemma run_bind {A B : Type} host (c : comp A) (k : A -> comp B) :
  run host (bind c k) =
  match run host c with
  | Returned a => run host (k a)
  | Raised e => Raised e
  | Unmodelled => Unmodelled
  end.
Proof. induction c as [a | e | f args k' IH | ]; simpl; auto. Qed.

Lemma run_try_except {A : Type} host (c : comp A) (h : exn -> comp A) :
  run host (try_except c h) =
  match run host c with
  | Returned a => Returned a
  | Raised e => run host (h e)
  | Unmodelled => Unmodelled
  end.
Proof. induction c as [a | e | f args k' IH | ]; simpl; auto. Qed.


Lemma run_calculator_body host (evaluation : comp value) :
  run host (calculator_body evaluation) =
  match run host (result <- evaluation ;; format_result result) with
  | Returned s => Returned s
  | Raised e => Returned (handler e)
  | Unmodelled => Unmodelled
  end.
Proof. unfold calculator_body. rewrite run_try_except. reflexivity. Qed.

(** * C1: the rendering of a complex value *)

(** C1: what line 106 returns for the pure imaginary [-1] is ["-1j"]
    (the alternative ["-j"] is never reached), line 111 prints a negative
    integral coefficient as a float, and lines 102-103 truncate where the
    real-value rule rounds; the other cases of the rule are rendered as
    stated. *)
Theorem pure_imaginary_minus_one_renders_minus_1j :
  format_result (VComplex zero (neg one)) = Ret "-1j"
  /\ scientific_calculator "-1j" = Ret "-1j"
  /\ scientific_calculator "3 - 2j" = Ret "3 - 2.0j"
  /\ scientific_calculator "2.99999999999 + 1j" = Ret "2 + j"
  /\ scientific_calculator "1j" = Ret "j"
  /\ scientific_calculator "3 + 1j" = Ret "3 + j"
  /\ scientific_calculator "3 - 1j" = Ret "3 - j"
  /\ scientific_calculator "3 + 2j" = Ret "3 + 2j"
  /\ scientific_calculator "2.5j" = Ret "2.5j".
Proof. repeat split. Qed.

(** * C2: operator precedence *)

Section Precedence.

Local Open Scope list_scope.

(** ** Unfolding equations of the parser *)

Lemma parse_sum_eq n ts :
  parse_sum (S n) ts
  = match parse_term n ts with
    | Some (l, rest) => sum_rest n l rest
    | None => None
    end.
Proof. reflexivity. Qed.

Lemma sum_rest_eq n acc ts :
  sum_rest (S n) acc ts
  = match ts with
    | t :: rest =>
        match sum_op t with
        | Some op =>
            match parse_term n rest with
            | Some (r, rest') => sum_rest n (BinOp acc op r) rest'
            | None => None
            end
        | None => Some (acc, ts)
        end
    | [] => Some (acc, ts)
    end.
Proof. reflexivity. Qed.

Lemma parse_term_eq n ts :
  parse_term (S n) ts
  = match parse_factor n ts with
    | Some (l, rest) => term_rest n l rest
    | None => None
    end.
Proof. reflexivity. Qed.

Lemma term_rest_eq n acc ts :
  term_rest (S n) acc ts
  = match ts with
    | t :: rest =>
        match term_op t with
        | Some op =>
            match parse_factor n rest with
            | Some (r, rest') => term_rest n (BinOp acc op r) rest'
            | None => None
            end
        | None => Some (acc, ts)
        end
    | [] => Some (acc, ts)
    end.
Proof. reflexivity. Qed.

Lemma parse_factor_eq n ts :
  parse_factor (S n) ts
  = match ts with
    | TPlus :: rest =>
        match parse_factor n rest with
        | Some (e, rest') => Some (UnaryOp UAdd e, rest')
        | None => None
        end
    | TMinus :: rest =>
        match parse_factor n rest with
        | Some (e, rest') => Some (UnaryOp USub e, rest')
        | None => None
        end
    | _ => parse_power n ts
    end.
Proof. reflexivity. Qed.

Lemma parse_power_eq n ts :
  parse_power (S n) ts
  = match parse_primary n ts with
    | Some (b, TDoubleStar :: rest) =>
        match parse_factor n rest with
        | Some (e, rest') => Some (BinOp b Pow e, rest')
        | None => None
        end
    | r => r
    end.
Proof. reflexivity. Qed.

Lemma parse_primary_eq n ts :
  parse_primary (S n) ts
  = match parse_atom n ts with
    | Some (a, rest) => trailers n a rest
    | None => None
    end.
Proof. reflexivity. Qed.

Lemma trailers_eq n acc ts :
  trailers (S n) acc ts
  = match ts with
    | TLParen :: rest =>
        match parse_args n rest with
        | Some (args, rest') => trailers n (Call acc args) rest'
        | None => None
        end
    | _ => Some (acc, ts)
    end.
Proof. reflexivity. Qed.

Lemma parse_atom_eq n ts :
  parse_atom (S n) ts
  = match ts with
    | TInt k :: rest => Some (Constant (VInt k), rest)
    | TFloat x :: rest => Some (Constant (VFloat x), rest)
    | TImag x :: rest => Some (Constant (VComplex zero x), rest)
    | TName id :: rest => Some (Name id, rest)
    | TLParen :: rest =>
        match parse_sum n rest with
        | Some (e, TRParen :: rest') => Some (e, rest')
        | _ => None
        end
    | _ => None
    end.
Proof. reflexivity. Qed.

Lemma chain_le_cost lvl e : (chain lvl e <= cost e)%nat.
Proof.
  induction e as [v | id | op a IH | l IHl op r IHr | f IHf args];
    cbn [chain cost]; try lia.
  destruct (op_level op =? lvl)%nat; lia.
Qed.

Lemma unparse_eq ctx e :
  unparse ctx e = parens (level e <? ctx)%nat (unparse 0 e).
Proof. destruct e as [v | id | op a | l op r | f args]; reflexivity. Qed.

Lemma unparse_no_parens ctx e :
  (ctx <= level e)%nat -> unparse ctx e = unparse 0 e.
Proof.
  intros H. rewrite unparse_eq.
  destruct (Nat.ltb_spec (level e) ctx); [lia | reflexivity].
Qed.

Lemma unparse_parens ctx e :
  (level e < ctx)%nat ->
  unparse ctx e = (TLParen :: unparse 0 e ++ [TRParen])%list.
Proof.
  intros H. rewrite unparse_eq.
  destruct (Nat.ltb_spec (level e) ctx); [reflexivity | lia].
Qed.

Lemma wrap_no_parens ctx e : (ctx <= level e)%nat -> wrap e ctx = 0%nat.
Proof.
  intros H. unfold wrap.
  destruct (Nat.ltb_spec (level e) ctx); [lia | reflexivity].
Qed.

Lemma wrap_parens ctx e : (level e < ctx)%nat -> wrap e ctx = 7%nat.
Proof.
  intros H. unfold wrap.
  destruct (Nat.ltb_spec (level e) ctx); [reflexivity | lia].
Qed.

Lemma follows_mono l l' rest :
  (l <= l')%nat -> follows l rest = true -> follows l' rest = true.
Proof.
  intros H. destruct rest as [ | t rest]; [reflexivity | ].
  destruct t; cbn [follows]; try reflexivity; try discriminate;
    rewrite !Nat.ltb_lt; lia.
Qed.

Lemma term_rest_stop n e rest :
  (1 <= n)%nat -> follows 1 rest = true -> term_rest n e rest = Some (e, rest).
Proof.
  intros Hn H. destruct n as [ | n]; [lia | ]. rewrite term_rest_eq.
  destruct rest as [ | t rest]; [reflexivity | ].
  destruct t; try reflexivity; discriminate.
Qed.

Lemma sum_rest_stop n e rest :
  (1 <= n)%nat -> follows 0 rest = true -> sum_rest n e rest = Some (e, rest).
Proof.
  intros Hn H. destruct n as [ | n]; [lia | ]. rewrite sum_rest_eq.
  destruct rest as [ | t rest]; [reflexivity | ].
  destruct t; try reflexivity; discriminate.
Qed.

Lemma trailers_stop n e rest :
  (1 <= n)%nat -> follows 4 rest = true -> trailers n e rest = Some (e, rest).
Proof.
  intros Hn H. destruct n as [ | n]; [lia | ]. rewrite trailers_eq.
  destruct rest as [ | t rest]; [reflexivity | ].
  destruct t; try reflexivity; discriminate.
Qed.

Lemma primary_of_leaf e :
  level e = 4%nat -> call_free e = true -> parses_primary e.
Proof.
  intros Hl Hc n rest Hn Hf.
  destruct n as [ | [ | n]]; try lia.
  rewrite parse_primary_eq.
  destruct e as [v | id | op a | l op r | f args]; try discriminate.
  - cbn [call_free] in Hc. rewrite unparse_no_parens by (cbn; lia).
    cbn [unparse parens level Nat.ltb Nat.leb].
    destruct v as [k | x | re im | | ]; cbn [literal_token] in *;
      try discriminate.
    + cbn [app]. rewrite parse_atom_eq. apply trailers_stop; [lia | exact Hf].
    + cbn [app]. rewrite parse_atom_eq. apply trailers_stop; [lia | exact Hf].
    + destruct re as [[ | ] | | | ]; try discriminate.
      cbn [app]. rewrite parse_atom_eq. apply trailers_stop; [lia | exact Hf].
  - rewrite unparse_no_parens by (cbn; lia).
    cbn [unparse parens level Nat.ltb Nat.leb app].
    rewrite parse_atom_eq. apply trailers_stop; [lia | exact Hf].
  - destruct op; discriminate.
Qed.

Lemma sum_of_chain e :
  parses_sum_chain e ->
  forall n rest,
    (cost e + 6 <= n)%nat -> follows 0 rest = true ->
    parse_sum n (unparse 0 e ++ rest) = Some (e, rest).
Proof.
  intros H n rest Hn Hf. destruct n as [ | n]; [lia | ].
  rewrite parse_sum_eq. fold (sum_from n (unparse 0 e ++ rest)).
  rewrite H;
    [ | lia | apply follows_mono with (l := 0%nat); [lia | exact Hf]].
  pose proof (chain_le_cost 0 e).
  apply sum_rest_stop; [lia | exact Hf].
Qed.

Lemma term_of_chain e :
  parses_term_chain e ->
  forall n rest,
    (cost e + 5 + wrap e 1 <= n)%nat -> follows 1 rest = true ->
    parse_term n (unparse 1 e ++ rest) = Some (e, rest).
Proof.
  intros H n rest Hn Hf. destruct n as [ | n]; [lia | ].
  rewrite parse_term_eq. fold (term_from n (unparse 1 e ++ rest)).
  rewrite H;
    [ | lia | apply follows_mono with (l := 1%nat); [lia | exact Hf]].
  pose proof (chain_le_cost 1 e).
  apply term_rest_stop; [lia | exact Hf].
Qed.

Lemma primary_of_sum_chain e :
  (level e < 4)%nat -> parses_sum_chain e -> parses_primary e.
Proof.
  intros Hl H n rest Hn Hf. rewrite wrap_parens in Hn by exact Hl.
  destruct n as [ | [ | n]]; try lia.
  rewrite parse_primary_eq, unparse_parens by exact Hl.
  cbn [app]. rewrite <- app_assoc. cbn [app].
  rewrite parse_atom_eq.
  rewrite (sum_of_chain e H); [ | lia | reflexivity].
  apply trailers_stop; [lia | exact Hf].
Qed.

Lemma power_of_primary e :
  level e <> 3%nat -> parses_primary e -> parses_power e.
Proof.
  intros Hl H n rest Hn Hf.
  assert (E : unparse 3 e = unparse 4 e /\ wrap e 3 = wrap e 4).
  { destruct (Nat.lt_ge_cases (level e) 3).
    - rewrite (unparse_parens 3), (unparse_parens 4), (wrap_parens 3),
        (wrap_parens 4) by lia. auto.
    - rewrite (unparse_no_parens 3), (unparse_no_parens 4),
        (wrap_no_parens 3), (wrap_no_parens 4) by lia. auto. }
  destruct E as [E1 E2]. rewrite E1. rewrite E2 in Hn.
  destruct n as [ | n]; [lia | ].
  rewrite parse_power_eq.
  rewrite H;
    [ | lia | apply follows_mono with (l := 2%nat); [lia | exact Hf]].
  destruct rest as [ | t rest]; [reflexivity | ].
  destruct t; try reflexivity; discriminate.
Qed.

Lemma head_of_primary e :
  call_free e = true ->
  exists t ts, unparse 4 e = t :: ts /\ t <> TPlus /\ t <> TMinus.
Proof.
  intros Hc. destruct (Nat.lt_ge_cases (level e) 4) as [Hl | Hl].
  - rewrite unparse_parens by exact Hl. eexists _, _. repeat split; discriminate.
  - rewrite unparse_no_parens by exact Hl.
    destruct e as [v | id | op a | l op r | f args]; try discriminate.
    + cbn [call_free] in Hc. cbn [unparse parens level Nat.ltb Nat.leb].
      destruct (literal_token v) as [t | ] eqn:E; [ | discriminate].
      exists t, []. split; [reflexivity | ].
      destruct v as [k | x | re im | | ]; cbn in E; try discriminate.
      * injection E as <-. split; discriminate.
      * injection E as <-. split; discriminate.
      * destruct re as [[ | ] | | | ]; try discriminate.
        injection E as <-. split; discriminate.
    + eexists _, _. repeat split; discriminate.
    + cbn in Hl. lia.
    + cbn in Hl. destruct op; cbn in Hl; lia.
Qed.

Lemma factor_of_power e :
  level e <> 2%nat -> call_free e = true -> parses_power e -> parses_factor e.
Proof.
  intros Hl Hc H n rest Hn Hf.
  assert (E : unparse 2 e = unparse 3 e /\ wrap e 2 = wrap e 3).
  { destruct (Nat.lt_ge_cases (level e) 2).
    - rewrite (unparse_parens 2), (unparse_parens 3), (wrap_parens 2),
        (wrap_parens 3) by lia. auto.
    - rewrite (unparse_no_parens 2), (unparse_no_parens 3),
        (wrap_no_parens 2), (wrap_no_parens 3) by lia. auto. }
  destruct E as [E1 E2]. rewrite E1. rewrite E2 in Hn.
  destruct n as [ | n]; [lia | ].
  rewrite parse_factor_eq.
  assert (Hh : exists t ts, unparse 3 e = t :: ts /\ t <> TPlus /\ t <> TMinus).
  { destruct (Nat.lt_ge_cases (level e) 3) as [Hl3 | Hl3].
    - rewrite unparse_parens by exact Hl3.
      eexists _, _. repeat split; discriminate.
    - rewrite unparse_no_parens by exact Hl3.
      destruct e as [v | id | op a | l op r | f args]; try discriminate.
      + rewrite <- (unparse_no_parens 4) by (cbn; lia).
        apply head_of_primary. exact Hc.
      + eexists _, _. repeat split; discriminate.
      + cbn in Hl3. cbn in Hl.
        cbn [call_free] in Hc. apply andb_true_iff in Hc as [Hcl _].
        destruct (head_of_primary l Hcl) as (t & ts & Ht & Hn1 & Hn2).
        destruct op; cbn in Hl3, Hl; try lia.
        cbn [unparse parens level op_level Nat.ltb Nat.leb].
        rewrite Ht. cbn [app]. eexists _, _. repeat split; eassumption. }
  destruct Hh as (t & ts & Ht & Hn1 & Hn2).
  specialize (H n rest ltac:(lia) Hf). rewrite Ht in *. cbn [app] in *.
  destruct t; try congruence; exact H.
Qed.

Lemma chain_other lvl e : level e <> lvl -> chain lvl e = 0%nat.
Proof.
  intros H. destruct e as [v | id | op a | l op r | f args]; try reflexivity.
  cbn [chain level] in *.
  destruct (Nat.eqb_spec (op_level op) lvl); [contradiction | reflexivity].
Qed.

Lemma term_chain_of_factor e :
  level e <> 1%nat -> parses_factor e -> parses_term_chain e.
Proof.
  intros Hl H n rest Hn Hf.
  assert (E : unparse 1 e = unparse 2 e /\ wrap e 1 = wrap e 2).
  { destruct (Nat.lt_ge_cases (level e) 1).
    - rewrite (unparse_parens 1), (unparse_parens 2), (wrap_parens 1),
        (wrap_parens 2) by lia. auto.
    - rewrite (unparse_no_parens 1), (unparse_no_parens 2),
        (wrap_no_parens 1), (wrap_no_parens 2) by lia. auto. }
  destruct E as [E1 E2]. rewrite E1. rewrite E2 in Hn.
  unfold term_from. rewrite H by (lia || exact Hf).
  rewrite chain_other by exact Hl. now rewrite Nat.sub_0_r.
Qed.

Lemma sum_chain_of_term_chain e :
  level e <> 0%nat -> parses_term_chain e -> parses_sum_chain e.
Proof.
  intros Hl H n rest Hn Hf.
  rewrite <- (unparse_no_parens 1) by lia.
  unfold sum_from.
  rewrite (term_of_chain e H); [ | rewrite wrap_no_parens; lia | exact Hf].
  rewrite chain_other by exact Hl. now rewrite Nat.sub_0_r.
Qed.

Lemma power_direct b x :
  parses_primary b -> parses_factor x -> parses_power (BinOp b Pow x).
Proof.
  intros Hb Hx n rest Hn Hf.
  rewrite unparse_no_parens by (cbn; lia).
  cbn [unparse parens level op_level Nat.ltb Nat.leb].
  rewrite wrap_no_parens in Hn by (cbn; lia). cbn [cost] in Hn.
  destruct n as [ | n]; [lia | ].
  rewrite parse_power_eq, <- app_assoc. cbn [app].
  assert (wrap b 4 <= 7)%nat by (unfold wrap; destruct (_ <? _)%nat; lia).
  assert (wrap x 2 <= 7)%nat by (unfold wrap; destruct (_ <? _)%nat; lia).
  rewrite Hb; [ | lia | reflexivity].
  rewrite Hx; [reflexivity | lia | exact Hf].
Qed.

Lemma factor_direct op a :
  parses_factor a -> parses_factor (UnaryOp op a).
Proof.
  intros Ha n rest Hn Hf.
  rewrite unparse_no_parens by (cbn; lia).
  cbn [unparse parens level Nat.ltb Nat.leb].
  rewrite wrap_no_parens in Hn by (cbn; lia). cbn [cost] in Hn.
  destruct n as [ | n]; [lia | ].
  assert (wrap a 2 <= 7)%nat by (unfold wrap; destruct (_ <? _)%nat; lia).
  rewrite parse_factor_eq.
  destruct op; cbn [unary_token app]; rewrite Ha; try reflexivity;
    try lia; exact Hf.
Qed.

Lemma term_direct l op r :
  op_level op = 1%nat ->
  parses_term_chain l -> parses_factor r ->
  parses_term_chain (BinOp l op r).
Proof.
  intros Hop Hl Hr n rest Hn Hf.
  rewrite unparse_no_parens by (cbn; lia).
  assert (E : unparse 0 (BinOp l op r)
              = unparse 1 l ++ op_token op :: unparse 2 r).
  { destruct op; try discriminate; reflexivity. }
  rewrite E, <- app_assoc. cbn [app].
  rewrite wrap_no_parens in Hn by (cbn; lia). cbn [cost chain] in *.
  rewrite Hop, Nat.eqb_refl.
  assert (wrap l 1 <= 7)%nat by (unfold wrap; destruct (_ <? _)%nat; lia).
  assert (wrap r 2 <= 7)%nat by (unfold wrap; destruct (_ <? _)%nat; lia).
  pose proof (chain_le_cost 1 l).
  rewrite Hl; [ | lia | destruct op; try discriminate; reflexivity].
  replace (n - chain 1 l)%nat with (S (n - S (chain 1 l))) by lia.
  rewrite term_rest_eq.
  assert (T : term_op (op_token op) = Some op)
    by (destruct op; try discriminate; reflexivity).
  rewrite T, Hr; [reflexivity | lia | exact Hf].
Qed.

Lemma sum_direct l op r :
  op_level op = 0%nat ->
  parses_sum_chain l -> parses_term_chain r ->
  parses_sum_chain (BinOp l op r).
Proof.
  intros Hop Hl Hr n rest Hn Hf.
  assert (E : unparse 0 (BinOp l op r)
              = unparse 0 l ++ op_token op :: unparse 1 r).
  { destruct op; try discriminate; reflexivity. }
  rewrite E, <- app_assoc. cbn [app].
  cbn [cost chain] in *. rewrite Hop, Nat.eqb_refl.
  assert (wrap r 1 <= 7)%nat by (unfold wrap; destruct (_ <? _)%nat; lia).
  pose proof (chain_le_cost 0 l).
  rewrite Hl; [ | lia | destruct op; try discriminate; reflexivity].
  replace (n - chain 0 l)%nat with (S (n - S (chain 0 l))) by lia.
  rewrite sum_rest_eq.
  assert (T : sum_op (op_token op) = Some op)
    by (destruct op; try discriminate; reflexivity).
  rewrite T, (term_of_chain r Hr); [reflexivity | lia | exact Hf].
Qed.

(** Every level of the parser reads back the standard rendering. *)
Lemma parses_of_own_level e :
  call_free e = true ->
  match level e with
  | 0%nat => parses_sum_chain e
  | 1%nat => parses_term_chain e
  | 2%nat => parses_factor e
  | 3%nat => parses_power e
  | _ => parses_primary e
  end ->
  parses e.
Proof.
  intros Hc H. unfold parses.
  destruct (level e) as [ | [ | [ | [ | k]]]] eqn:El.
  - assert (Hp : parses_primary e) by (apply primary_of_sum_chain; [lia | exact H]).
    assert (Hw : parses_power e) by (apply power_of_primary; [lia | exact Hp]).
    assert (Hf : parses_factor e) by (apply factor_of_power; [lia | exact Hc | exact Hw]).
    assert (Ht : parses_term_chain e) by (apply term_chain_of_factor; [lia | exact Hf]).
    auto.
  - assert (Hs : parses_sum_chain e) by (apply sum_chain_of_term_chain; [lia | exact H]).
    assert (Hp : parses_primary e) by (apply primary_of_sum_chain; [lia | exact Hs]).
    assert (Hw : parses_power e) by (apply power_of_primary; [lia | exact Hp]).
    assert (Hf : parses_factor e) by (apply factor_of_power; [lia | exact Hc | exact Hw]).
    auto.
  - assert (Ht : parses_term_chain e) by (apply term_chain_of_factor; [lia | exact H]).
    assert (Hs : parses_sum_chain e) by (apply sum_chain_of_term_chain; [lia | exact Ht]).
    assert (Hp : parses_primary e) by (apply primary_of_sum_chain; [lia | exact Hs]).
    assert (Hw : parses_power e) by (apply power_of_primary; [lia | exact Hp]).
    auto.
  - assert (Hf : parses_factor e) by (apply factor_of_power; [lia | exact Hc | exact H]).
    assert (Ht : parses_term_chain e) by (apply term_chain_of_factor; [lia | exact Hf]).
    assert (Hs : parses_sum_chain e) by (apply sum_chain_of_term_chain; [lia | exact Ht]).
    assert (Hp : parses_primary e) by (apply primary_of_sum_chain; [lia | exact Hs]).
    auto.
  - assert (Hw : parses_power e) by (apply power_of_primary; [lia | exact H]).
    assert (Hf : parses_factor e) by (apply factor_of_power; [lia | exact Hc | exact Hw]).
    assert (Ht : parses_term_chain e) by (apply term_chain_of_factor; [lia | exact Hf]).
    assert (Hs : parses_sum_chain e) by (apply sum_chain_of_term_chain; [lia | exact Ht]).
    auto.
Qed.

Lemma call_free_parses e : call_free e = true -> parses e.
Proof.
  induction e as [v | id | op a IH | l IHl op r IHr | f IHf args];
    intros Hc.
  - apply parses_of_own_level; [exact Hc | ].
    apply primary_of_leaf; [reflexivity | exact Hc].
  - apply parses_of_own_level; [exact Hc | ].
    apply primary_of_leaf; [reflexivity | exact Hc].
  - apply parses_of_own_level; [exact Hc | ].
    cbn [level]. apply factor_direct. apply IH. exact Hc.
  - cbn [call_free] in Hc. pose proof Hc as Hc'.
    apply andb_true_iff in Hc as [Hcl Hcr].
    destruct (IHl Hcl) as (Pl & _ & _ & Tl & Sl).
    destruct (IHr Hcr) as (_ & _ & Fr & Tr & _).
    apply parses_of_own_level; [exact Hc' | ].
    destruct op; cbn [level op_level].
    + apply sum_direct; auto.
    + apply sum_direct; auto.
    + apply term_direct; auto.
    + apply term_direct; auto.
    + apply term_direct; auto.
    + apply term_direct; auto.
    + apply power_direct; auto.
  - discriminate.
Qed.

Lemma length_parens (b : bool) (ts : list token) :
  (List.length ts <= List.length (parens b ts))%nat.
Proof.
  destruct b; cbn [parens]; [ | lia].
  cbn [List.length]. rewrite length_app. lia.
Qed.

Lemma cost_le_tokens ctx e : (cost e <= 10 * List.length (unparse ctx e))%nat.
Proof.
  revert ctx.
  induction e as [v | id | op a IH | l IHl op r IHr | f IHf args];
    intros ctx; cbn [cost]; try lia.
  - rewrite unparse_eq.
    pose proof (length_parens (level (UnaryOp op a) <? ctx)%nat
                  (unparse 0 (UnaryOp op a))) as P.
    assert (L : (cost a + 10 <= 10 * List.length (unparse 0 (UnaryOp op a)))%nat).
    { change (unparse 0 (UnaryOp op a)) with (unary_token op :: unparse 2 a).
      cbn [List.length]. specialize (IH 2%nat). lia. }
    lia.
  - rewrite unparse_eq.
    pose proof (length_parens (level (BinOp l op r) <? ctx)%nat
                  (unparse 0 (BinOp l op r))) as P.
    assert (L : (cost l + cost r + 10
                 <= 10 * List.length (unparse 0 (BinOp l op r)))%nat).
    { destruct op; cbn [unparse parens level op_level Nat.ltb Nat.leb];
        rewrite length_app; cbn [List.length];
        match goal with
        | |- context [List.length (unparse ?c1 l)] => specialize (IHl c1)
        end;
        match goal with
        | |- context [List.length (unparse ?c2 r)] => specialize (IHr c2)
        end; lia. }
    lia.
Qed.

Lemma parse_unparse (e : expr) :
  call_free e = true -> parse_tokens (unparse 0 e) = Some e.
Proof.
  intros Hc. destruct (call_free_parses e Hc) as (_ & _ & _ & _ & Hs).
  unfold parse_tokens.
  pose proof (sum_of_chain e Hs (10 * List.length (unparse 0 e) + 10) []) as H.
  rewrite app_nil_r in H. rewrite H; [reflexivity | | reflexivity].
  pose proof (cost_le_tokens 0 e). lia.
Qed.

End Precedence.

(** C2: the parser reads the standard rendering of every expression
    without calls back as that expression, and [eval] evaluates the tree
    that the parser returns: operators group by standard precedence, [**]
    to the right; ["2 + 3 * 4"] gives ["14"] and ["2 ^ 3 ^ 2"] gives
    ["512"]. *)
Theorem standard_precedence :
  (forall e : expr, call_free e = true -> parse_tokens (unparse 0 e) = Some e)
  /\ (forall (expression : string) (e : expr),
         parse expression = Some e ->
         eval expression safe_dict = eval_expr safe_dict e)
  /\ parse (normalize "2 + 3 * 4")
     = Some (BinOp (Constant (VInt 2)) Add
                   (BinOp (Constant (VInt 3)) Mult (Constant (VInt 4))))
  /\ parse (normalize "2 ^ 3 ^ 2")
     = Some (BinOp (Constant (VInt 2)) Pow
                   (BinOp (Constant (VInt 3)) Pow (Constant (VInt 2))))
  /\ scientific_calculator "2 + 3 * 4" = Ret "14"
  /\ scientific_calculator "2 ^ 3 ^ 2" = Ret "512".
Proof.
  split; [exact parse_unparse | ].
  split; [intros expression e H; unfold eval; now rewrite H | ].
  repeat split.
Qed.

Lemma standard_precedence_witness :
  parse_tokens [TInt 2; TPlus; TInt 3; TStar; TInt 4]
  = Some (BinOp (Constant (VInt 2)) Add
                (BinOp (Constant (VInt 3)) Mult (Constant (VInt 4)))).
Proof.
  exact (proj1 standard_precedence
           (BinOp (Constant (VInt 2)) Add
                  (BinOp (Constant (VInt 3)) Mult (Constant (VInt 4))))
           eq_refl).
Defined.

(** * C3: the rendering of a real value *)

Lemma digits2_pos_bound (m : positive) : Zpos m < 2 ^ Zpos (digits2_pos m).
Proof.
  induction m as [m IH | m IH | ]; cbn [digits2_pos];
    rewrite ?Pos2Z.inj_succ, ?Z.pow_succ_r by lia; lia.
Qed.

Lemma binary64_bounds s m e :
  binary64 (S754_finite s m e) = true -> Zpos m < 2 ^ 53 /\ e <= 971.
Proof.
  unfold binary64, valid_binary, bounded, canonical_mantissa, fexp, emin,
    prec, emax.
  intros H. apply andb_true_iff in H as [H1 H2].
  apply Z.eqb_eq in H1. apply Z.leb_le in H2. split; [ | lia].
  pose proof (digits2_pos_bound m) as Hm.
  assert (Hd : Zpos (digits2_pos m) <= 53) by lia.
  apply Z.lt_le_trans with (1 := Hm).
  apply Z.pow_le_mono_r; lia.
Qed.

Lemma nearest_integer_bound x :
  binary64 x = true -> Z.abs (nearest_integer x) <= 2 ^ 1024 - 2 ^ 971.
Proof.
  intros Hv. destruct x as [s | s | | s m e]; try (cbn; lia).
  apply binary64_bounds in Hv as [Hm He].
  unfold nearest_integer, round_half_even.
  assert (Ha : forall a, 0 <= a <= 2 ^ 1024 - 2 ^ 971 ->
                         Z.abs (if s then - a else a) <= 2 ^ 1024 - 2 ^ 971).
  { intros a Ha. destruct s; lia. }
  apply Ha. clear Ha.
  destruct (0 <=? e) eqn:E.
  - apply Z.leb_le in E.
    assert (H2 : 0 < 2 ^ e <= 2 ^ 971).
    { split; [apply Z.pow_pos_nonneg; lia | apply Z.pow_le_mono_r; lia]. }
    replace (2 ^ 1024 - 2 ^ 971) with ((2 ^ 53 - 1) * 2 ^ 971) by reflexivity.
    split; [lia | ].
    apply Z.mul_le_mono_nonneg; lia.
  - apply Z.leb_gt in E.
    assert (HD : 0 < 2 ^ (- e)) by (apply Z.pow_pos_nonneg; lia).
    pose proof (Z.div_le_upper_bound (Zpos m) (2 ^ (- e)) (Zpos m) HD) as Hq.
    assert (Hq' : Zpos m / 2 ^ (- e) <= Zpos m) by (apply Hq; nia).
    assert (Hq0 : 0 <= Zpos m / 2 ^ (- e)) by (apply Z.div_pos; lia).
    assert (Hbig : 2 ^ 53 + 1 <= 2 ^ 1024 - 2 ^ 971) by (vm_compute; discriminate).
    destruct (2 * (Zpos m mod 2 ^ (- e)) ?= 2 ^ (- e));
      [destruct (Z.even (Zpos m / 2 ^ (- e))) | | ]; lia.
Qed.






(** The examples of C3. *)
Lemma rendering_examples :
  scientific_calculator "sqrt(4)" = Ret "2"
  /\ scientific_calculator "sqrt(16)" = Ret "4"
  /\ (forall host,
         host libm_sin [div math_pi (of_Z 2)] = one ->
         run host (scientific_calculator "sin(pi/2)") = Returned "1").
Proof.
  split; [reflexivity | split; [reflexivity | ]].
  intros host H.
  change (scientific_calculator "sin(pi/2)")
    with (calculator_body
            (math_1 libm_sin false (VFloat (div math_pi (of_Z 2))))).
  rewrite run_calculator_body. cbn [math_1 as_double bind libm run].
  rewrite H. reflexivity.
Qed.


(** * C4: [sqrt] is complex-valued, [log] is real-only *)

Lemma negative_cases (x : float) :
  ltb x zero = true ->
  x = S754_infinity true \/ exists m e, x = S754_finite true m e.
Proof.
  destruct x as [s | [ | ] | | [ | ] m e]; cbn; try discriminate; eauto.
Qed.

Lemma c99_hypot_zero (x y : float) :
  is_zero y = true -> exists h, c99_hypot x y = Ret h.
Proof.
  intros Hy. unfold c99_hypot. rewrite Hy.
  destruct (is_inf x || is_inf y); [eauto | ].
  destruct (is_nan x || is_nan y); eauto.
Qed.

Lemma sqrt_of_negative (x : float) :
  ltb x zero = true ->
  exists re im, apply_builtin cmath_sqrt [VFloat x] = Ret (VComplex re im).
Proof.
  intros Hx. cbn [apply_builtin to_complex bind fst snd].
  destruct (negative_cases x Hx) as [-> | (m & e & ->)].
  - cbn. eauto.
  - unfold cmath_sqrt_impl.
    cbn [is_finite is_zero andb negb abs SFabs leb SFleb SFcompare zero].
    set (ax := S754_finite false m e).
    match goal with
    | |- context [if ?c then _ else _] => destruct c
    end;
      match goal with
      | |- context [c99_hypot ?a ?b] =>
          destruct (c99_hypot_zero a b eq_refl) as [h ->]
      end;
      cbn [bind]; eauto.
Qed.

Lemma log_of_negative (x : float) :
  ltb x zero = true ->
  apply_builtin math_log [VFloat x] = raise ValueError "math domain error".
Proof.
  intros Hx. cbn [apply_builtin loghelper as_double bind].
  destruct (negative_cases x Hx) as [-> | (m & e & ->)]; reflexivity.
Qed.

(** C4, as amended: ["sqrt(-1)"] returns ["j"] and ["log(-1)"] an error
    for an invalid operation; for every negative float, minus infinity
    included, [sqrt] raises nothing and returns a complex number, and
    [log] raises [ValueError], which the calculator reports. *)
Theorem sqrt_is_complex_log_is_real :
  scientific_calculator "sqrt(-1)" = Ret "j"
  /\ (exists msg,
         scientific_calculator "log(-1)"
         = Ret ("Error: Invalid mathematical operation - " ++ msg))
  /\ (forall x : float,
         ltb x zero = true ->
         (exists re im,
             apply_builtin cmath_sqrt [VFloat x] = Ret (VComplex re im))
         /\ (exists msg,
                apply_builtin math_log [VFloat x] = raise ValueError msg
                /\ calculator_body (apply_builtin math_log [VFloat x])
                   = Ret ("Error: Invalid mathematical operation - " ++ msg))).
Proof.
  split; [reflexivity | split].
  - exists "math domain error". reflexivity.
  - intros x Hx. split.
    + exact (sqrt_of_negative x Hx).
    + exists "math domain error". rewrite (log_of_negative x Hx).
      split; reflexivity.
Qed.

Lemma sqrt_is_complex_log_is_real_witness :
  (exists re im,
      apply_builtin cmath_sqrt [VFloat (of_decimal (- 25) (- 1))]
      = Ret (VComplex re im))
  /\ (exists msg,
         apply_builtin math_log [VFloat (of_decimal (- 25) (- 1))]
         = raise ValueError msg
         /\ calculator_body
              (apply_builtin math_log [VFloat (of_decimal (- 25) (- 1))])
            = Ret ("Error: Invalid mathematical operation - " ++ msg)).
Proof.
  destruct sqrt_is_complex_log_is_real as (_ & _ & H).
  exact (H (of_decimal (- 25) (- 1)) eq_refl).
Defined.

(** C4, as stated, fails: the calculator returns an error for
    ["sqrt(-inf)"], whose imaginary part the formatter cannot round. *)
Lemma sqrt_of_minus_infinity_is_an_error :
  apply_builtin cmath_sqrt [VFloat (neg inf)] = Ret (VComplex zero inf)
  /\ scientific_calculator "sqrt(-inf)"
     = Ret "Error: Result too large to compute".
Proof. split; reflexivity. Qed.

(** * C5: the namespace *)







(** * C6: the calculator always returns text *)


(** * C7: division by zero *)

Lemma binary_zero_division (op : operator) (a b : value) :
  is_division_of op a b = true -> zero_divisor b = true ->
  exists msg, binary op a b = Raise (mk_exn ZeroDivisionError msg).
Proof.
  intros Hd Hz.
  assert (T : forall A (x : Z) (k : float -> comp A),
             fits_double x = true ->
             bind (float_of_int x) k = k (of_Z x)).
  { intros A x k H. unfold float_of_int. rewrite H. reflexivity. }
  destruct b as [y | y | yre yim | | ]; simpl in Hz; try discriminate.
  - apply Z.eqb_eq in Hz; subst y.
    destruct a as [x | x | xre xim | | ]; destruct op;
      simpl in Hd; try discriminate;
      unfold binary, int_op, float_op, complex_op, to_complex;
      simpl; rewrite ?T by assumption;
      unfold c_quot, raise; simpl; eexists; reflexivity.
  - destruct y; try discriminate.
    destruct a as [x | x | xre xim | | ]; destruct op;
      simpl in Hd; try discriminate;
      unfold binary, int_op, float_op, complex_op, to_complex;
      simpl; rewrite ?T by assumption;
      unfold c_quot, raise; simpl; eexists; reflexivity.
  - apply andb_true_iff in Hz as [H1 H2].
    destruct yre; try discriminate. destruct yim; try discriminate.
    destruct a as [x | x | xre xim | | ]; destruct op;
      simpl in Hd; try discriminate;
      unfold binary, int_op, float_op, complex_op, to_complex;
      simpl; rewrite ?T by assumption;
      unfold c_quot, raise; simpl; eexists; reflexivity.
Qed.

Section ZeroDivision.

Variable host : libm_fn -> list float -> float.

Lemma eval_args_zero_division before a after :
  Forall (evaluates host) before ->
  raises_zero_division host (eval_expr safe_dict a) ->
  raises_zero_division host
    (eval_args (eval_expr safe_dict) (before ++ a :: after)).
Proof.
  intros Hb [msg Ha]. induction Hb as [ | x before [v Hx] Hb IH].
  - exists msg. simpl. rewrite run_bind, Ha. reflexivity.
  - destruct IH as [msg' IH]. exists msg'. simpl.
    rewrite run_bind, Hx, run_bind, IH. reflexivity.
Qed.

Lemma divides_by_zero_raises e :
  divides_by_zero host e ->
  raises_zero_division host (eval_expr safe_dict e).
Proof.
  induction 1 as [l op r a b Hl Hr Hd Hz | op a H IH | l op r H IH
                 | l op r [v Hl] H IH | f args H IH
                 | f before a after [fv Hf] Hb H IH].
  - destruct (binary_zero_division op a b Hd Hz) as [msg Hm].
    exists msg. simpl. rewrite run_bind, Hl, run_bind, Hr, Hm. reflexivity.
  - destruct IH as [msg IH]. exists msg. simpl. rewrite run_bind, IH.
    reflexivity.
  - destruct IH as [msg IH]. exists msg. simpl. rewrite run_bind, IH.
    reflexivity.
  - destruct IH as [msg IH]. exists msg. simpl.
    rewrite run_bind, Hl, run_bind, IH. reflexivity.
  - destruct IH as [msg IH]. exists msg. simpl. rewrite run_bind, IH.
    reflexivity.
  - destruct (eval_args_zero_division before a after Hb IH) as [msg Hm].
    exists msg. simpl. rewrite run_bind, Hf, run_bind, Hm. reflexivity.
Qed.

End ZeroDivision.

(** C7: when the evaluation of an expression performs a division by
    zero, on integers, floats or complex numbers, [eval] raises
    [ZeroDivisionError] and the calculator returns
    ["Error: Division by zero"], never a number. *)
Theorem division_by_zero_is_reported :
  forall host (expression : string) (e : expr),
    parse (normalize expression) = Some e ->
    divides_by_zero host e ->
    (exists msg,
        run host (eval (normalize expression) safe_dict)
        = Raised (mk_exn ZeroDivisionError msg))
    /\ run host (scientific_calculator expression)
       = Returned "Error: Division by zero".
Proof.
  intros host expression e Hp Hd.
  destruct (divides_by_zero_raises host e Hd) as [msg Hm].
  unfold scientific_calculator, eval. rewrite Hp. split.
  - exists msg. exact Hm.
  - rewrite run_calculator_body, run_bind, Hm. reflexivity.
Qed.

Lemma division_by_zero_is_reported_witness :
  run (fun _ _ => zero) (scientific_calculator "1/0")
  = Returned "Error: Division by zero".
Proof.
  apply (division_by_zero_is_reported (fun _ _ => zero) "1/0"
           (BinOp (Constant (VInt 1)) Div (Constant (VInt 0)))).
  - reflexivity.
  - apply dz_here with (a := VInt 1) (b := VInt 0); reflexivity.
Defined.

(** * C8: the normalization pass *)

(** C8, as stated, fails: the [mod] inside [model] is no standalone
    token, and it is replaced. *)
Lemma normalize_rewrites_inside_words :
  normalize "model" = "%el"
  /\ normalize_standalone "model" = "model"
  /\ normalize_standalone "10 mod 3" = "10 % 3".
Proof. repeat split. Qed.

Lemma prefix_empty (s : string) : prefix "" s = true.
Proof. destruct s; reflexivity. Qed.

Lemma replace_from_0 old new c s :
  replace_from old new 0 (String c s)
  = if prefix old (String c s)
    then new ++ replace_from old new (String.length old - 1) s
    else String c (replace_from old new 0 s).
Proof. reflexivity. Qed.

Lemma prefix_caret c s :
  prefix "^" (String c s) = if ascii_dec "^" c then true else false.
Proof. cbn [prefix]. now rewrite prefix_empty. Qed.

Lemma replace_caret_app (a b : string) :
  replace "^" "**" (a ++ "^" ++ b)
  = replace "^" "**" a ++ "**" ++ replace "^" "**" b.
Proof.
  unfold replace. induction a as [ | c a IH].
  - cbn [append]. rewrite replace_from_0, prefix_caret. reflexivity.
  - cbn [append] in *. rewrite !replace_from_0, !prefix_caret.
    cbn [String.length Nat.sub].
    destruct (ascii_dec "^" c); rewrite IH; reflexivity.
Qed.

(** Where [prefix "mod"] holds, by the length of the string. *)
Lemma prefix_mod_1 c : prefix "mod" (String c "") = false.
Proof. cbn [prefix]. now destruct (ascii_dec "m" c). Qed.

Lemma prefix_mod_2 c1 c2 : prefix "mod" (String c1 (String c2 "")) = false.
Proof.
  cbn [prefix append]. destruct (ascii_dec "m" c1); [ | reflexivity].
  now destruct (ascii_dec "o" c2).
Qed.

Lemma prefix_mod_3 c1 c2 c3 s :
  prefix "mod" (String c1 (String c2 (String c3 s))) = true ->
  c1 = "m"%char /\ c2 = "o"%char /\ c3 = "d"%char.
Proof.
  cbn [prefix append]. destruct (ascii_dec "m" c1); [ | discriminate].
  destruct (ascii_dec "o" c2); [ | discriminate].
  destruct (ascii_dec "d" c3); [ | discriminate]. auto.
Qed.

Lemma prefix_mod_app c1 c2 c3 s t :
  prefix "mod" (String c1 (String c2 (String c3 s)) ++ t)
  = prefix "mod" (String c1 (String c2 (String c3 s))).
Proof.
  cbn [prefix append]. destruct (ascii_dec "m" c1); [ | reflexivity].
  destruct (ascii_dec "o" c2); [ | reflexivity].
  destruct (ascii_dec "d" c3); [ | reflexivity].
  now rewrite !prefix_empty.
Qed.

Lemma prefix_mod_head (b : string) : prefix "mod" ("mod" ++ b) = true.
Proof.
  cbn [append prefix].
  destruct (ascii_dec "m" "m"); [ | congruence].
  destruct (ascii_dec "o" "o"); [ | congruence].
  destruct (ascii_dec "d" "d"); [ | congruence].
  apply prefix_empty.
Qed.

Lemma replace_mod_head (b : string) :
  replace_from "mod" "%" 0 ("mod" ++ b) = "%" ++ replace_from "mod" "%" 0 b.
Proof.
  pose proof (prefix_mod_head b) as H. cbn [append] in *.
  rewrite replace_from_0, H. reflexivity.
Qed.

Lemma replace_mod_app_bounded (n : nat) :
  forall a b : string,
    (String.length a <= n)%nat ->
    replace "mod" "%" (a ++ "mod" ++ b)
    = replace "mod" "%" a ++ "%" ++ replace "mod" "%" b.
Proof.
  unfold replace. induction n as [ | n IH]; intros a b Hn.
  - destruct a; [apply replace_mod_head | simpl in Hn; lia].
  - destruct a as [ | c1 [ | c2 [ | c3 a]]].
    + apply replace_mod_head.
    + cbn [append].
      rewrite (replace_from_0 _ _ c1), (replace_from_0 _ _ c1 ""), prefix_mod_1.
      replace (prefix "mod" (String c1 (String "m" (String "o" (String "d" b)))))
        with false
        by (cbn [prefix]; destruct (ascii_dec "m" c1); [ | reflexivity];
            destruct (ascii_dec "o" "m"); [discriminate | reflexivity]).
      pose proof (replace_mod_head b) as H. cbn [append] in H. rewrite H.
      reflexivity.
    + cbn [append].
      rewrite (replace_from_0 _ _ c1),
        (replace_from_0 _ _ c1 (String c2 "")), prefix_mod_2.
      replace (prefix "mod"
                 (String c1 (String c2 (String "m" (String "o" (String "d" b))))))
        with false
        by (cbn [prefix]; destruct (ascii_dec "m" c1); [ | reflexivity];
            destruct (ascii_dec "o" c2); [ | reflexivity];
            destruct (ascii_dec "d" "m"); [discriminate | reflexivity]).
      specialize (IH (String c2 "") b). cbn [append] in IH.
      rewrite IH by (simpl in *; lia). reflexivity.
    + rewrite (replace_from_0 _ _ c1 (String c2 (String c3 a))).
      change (String c1 (String c2 (String c3 a)) ++ "mod" ++ b)
        with (String c1 (String c2 (String c3 a) ++ "mod" ++ b)).
      rewrite (replace_from_0 _ _ c1).
      change (String c1 (String c2 (String c3 a) ++ "mod" ++ b))
        with (String c1 (String c2 (String c3 a)) ++ "mod" ++ b).
      rewrite prefix_mod_app.
      destruct (prefix "mod" (String c1 (String c2 (String c3 a)))) eqn:E.
      * cbn [String.length Nat.sub append replace_from].
        pose proof (IH a b) as H. cbn [append] in H.
        rewrite H by (simpl in *; lia). reflexivity.
      * rewrite (IH (String c2 (String c3 a)) b) by (simpl in *; lia).
        reflexivity.
Qed.

Lemma replace_mod_app (a b : string) :
  replace "mod" "%" (a ++ "mod" ++ b)
  = replace "mod" "%" a ++ "%" ++ replace "mod" "%" b.
Proof. exact (replace_mod_app_bounded (String.length a) a b (le_n _)). Qed.

(** C8, as amended: the pass replaces every [^] by [**] and then every
    occurrence of the three letters [mod], standalone or inside a word, by
    [%], and leaves the other characters; so ["2^10"] gives ["1024"] and
    ["10 mod 3"] gives ["1"]. *)
Theorem normalization_is_textual :
  (forall a b : string,
      replace "^" "**" (a ++ "^" ++ b)
      = replace "^" "**" a ++ "**" ++ replace "^" "**" b)
  /\ (forall a b : string,
         replace "mod" "%" (a ++ "mod" ++ b)
         = replace "mod" "%" a ++ "%" ++ replace "mod" "%" b)
  /\ (forall (c : ascii) (s : string),
         c <> "^"%char ->
         replace "^" "**" (String c s) = String c (replace "^" "**" s))
  /\ (forall (c : ascii) (s : string),
         prefix "mod" (String c s) = false ->
         replace "mod" "%" (String c s) = String c (replace "mod" "%" s))
  /\ normalize "2^10" = "2**10"
  /\ normalize "10 mod 3" = "10 % 3"
  /\ scientific_calculator "2^10" = Ret "1024"
  /\ scientific_calculator "10 mod 3" = Ret "1".
Proof.
  split; [exact replace_caret_app | ].
  split; [exact replace_mod_app | ].
  split.
  { intros c s Hc. unfold replace. rewrite replace_from_0, prefix_caret.
    destruct (ascii_dec "^" c); [congruence | reflexivity]. }
  split.
  { intros c s Hc. unfold replace. rewrite replace_from_0, Hc. reflexivity. }
  repeat split.
Qed.

Lemma normalization_is_textual_witness :
  replace "^" "**" "a^b" = "a**b"
  /\ replace "mod" "%" "amodb" = "a%b"
  /\ replace "mod" "%" "model" = ("" ++ "%" ++ "el")%string.
Proof.
  destruct normalization_is_textual as (H1 & H2 & H3 & H4 & _).
  split; [ | split].
  - rewrite (H3 "a"%char "^b" ltac:(discriminate)).
    exact (f_equal (String "a") (H1 "" "b")).
  - rewrite (H4 "a"%char "modb" eq_refl).
    exact (f_equal (String "a") (H2 "" "b")).
  - exact (H2 "" "el").
Defined.

(** * C9: calls of unknown identifiers *)







(** * C10: [cbrt] of a negative number *)

Lemma third_value : third = S754_finite false 6004799503160661 (- 54).
Proof. reflexivity. Qed.

Lemma cbrt_of_finite_negative host m e :
  run host (apply_builtin lambda_cbrt [VFloat (S754_finite true m e)])
  = complex_cube_root host (S754_finite true m e).
Proof.
  change (apply_builtin lambda_cbrt [VFloat (S754_finite true m e)])
    with (float_pow (S754_finite true m e) third).
  unfold complex_cube_root. rewrite third_value.
  set (t := S754_finite false 6004799503160661 (- 54)).
  assert (Ht : is_integral t = false) by reflexivity.
  unfold float_pow.
  change (is_zero t) with false. change (is_nan t) with false.
  change (is_inf t) with false. cbn [is_nan is_inf is_zero].
  change (ltb (S754_finite true m e) zero) with true.
  rewrite Ht. cbn [andb negb].
  unfold complex_pow. rewrite Ht. cbn [is_zero zero andb].
  unfold c_pow.
  change (is_zero t) with false. cbn [is_zero andb].
  unfold c99_hypot, c99_atan2.
  cbn [is_inf is_nan is_zero orb andb negb signbit zero].
  cbn [bind libm run].
  change (copysign math_pi (S754_zero false)) with math_pi.
  destruct (is_inf _ || is_inf _); reflexivity.
Qed.

(** C10, as amended: [cbrt] is [x ** (1/3)]; for every finite negative
    float it takes the complex branch of the power operator and yields
    [pow(|x|, 1/3) * (cos(pi/3) + i sin(pi/3))] or an overflow, never a
    real; with the C library's values, ["cbrt(-8)"] returns
    ["1 + 1.7320508075688772j"]. *)
Theorem cbrt_of_negative_is_complex :
  lookup "cbrt" safe_dict = Some (VFun lambda_cbrt)
  /\ (forall host (x : float),
         ltb x zero = true -> is_finite x = true ->
         run host (apply_builtin lambda_cbrt [VFloat x])
         = complex_cube_root host x)
  /\ (forall host,
         run host (eval "cbrt(-8)" safe_dict)
         = complex_cube_root host (of_Z (- 8)))
  /\ (forall host,
         host libm_pow [of_Z 8; third] = of_Z 2 ->
         host libm_cos [mul math_pi third]
         = of_decimal 5000000000000001 (- 16) ->
         host libm_sin [mul math_pi third]
         = of_decimal 8660254037844386 (- 16) ->
         run host (scientific_calculator "cbrt(-8)")
         = Returned "1 + 1.7320508075688772j").
Proof.
  split; [reflexivity | split; [ | split]].
  - intros host x Hx Hf.
    destruct (negative_cases x Hx) as [-> | (m & e & ->)]; [discriminate | ].
    apply cbrt_of_finite_negative.
  - intros host.
    change (eval "cbrt(-8)" safe_dict)
      with (apply_builtin lambda_cbrt
              [VFloat (S754_finite true 4503599627370496 (- 49))]).
    apply cbrt_of_finite_negative.
  - intros host Hpow Hcos Hsin.
    change (scientific_calculator "cbrt(-8)")
      with (calculator_body
              (apply_builtin lambda_cbrt
                 [VFloat (S754_finite true 4503599627370496 (- 49))])).
    rewrite run_calculator_body, run_bind, cbrt_of_finite_negative.
    unfold complex_cube_root.
    change (abs (S754_finite true 4503599627370496 (- 49))) with (of_Z 8).
    rewrite Hpow, Hcos, Hsin. reflexivity.
Qed.

Lemma cbrt_of_negative_is_complex_witness :
  run libm_at_minus_8 (apply_builtin lambda_cbrt [VFloat (of_Z (- 8))])
  = complex_cube_root libm_at_minus_8 (of_Z (- 8))
  /\ run libm_at_minus_8 (scientific_calculator "cbrt(-8)")
     = Returned "1 + 1.7320508075688772j".
Proof.
  destruct cbrt_of_negative_is_complex as (_ & H1 & _ & H2). split.
  - exact (H1 libm_at_minus_8 (of_Z (- 8)) eq_refl eq_refl).
  - exact (H2 libm_at_minus_8 eq_refl eq_refl eq_refl).
Defined.

(** C10, as stated, fails: [cbrt] of minus infinity is the float
    [inf]. *)
Lemma cbrt_of_minus_infinity_is_real :
  apply_builtin lambda_cbrt [VFloat (neg inf)] = Ret (VFloat inf)
  /\ scientific_calculator "cbrt(-inf)"
     = Ret "Error: Result too large to compute".
Proof. split; reflexivity. Qed.

(** * Further properties of the code *)

(** ** The normalization pass (lines 85-86) *)

Lemma occurs_cons old c s :
  occurs old (String c s) = prefix old (String c s) || occurs old s.
Proof. reflexivity. Qed.

(** Where [old] does not occur, [replace] changes nothing. *)
Lemma replace_absent old new s :
  occurs old s = false -> replace old new s = s.
Proof.
  unfold replace. induction s as [ | c s IH]; [reflexivity | ].
  rewrite occurs_cons. intros H. apply orb_false_iff in H as [Hp Ho].
  rewrite replace_from_0, Hp, (IH Ho). reflexivity.
Qed.

Lemma occurs_caret_cons c s :
  occurs "^" (String c s)
  = (if ascii_dec "^" c then true else false) || occurs "^" s.
Proof. rewrite occurs_cons, prefix_caret. reflexivity. Qed.

Lemma replace_caret_cons c s :
  replace "^" "**" (String c s)
  = if ascii_dec "^" c then "**" ++ replace "^" "**" s
    else String c (replace "^" "**" s).
Proof.
  unfold replace. rewrite replace_from_0, prefix_caret.
  destruct (ascii_dec "^" c); reflexivity.
Qed.

Lemma no_caret_after_replace s : occurs "^" (replace "^" "**" s) = false.
Proof.
  induction s as [ | c s IH]; [reflexivity | ].
  rewrite replace_caret_cons. destruct (ascii_dec "^" c) as [E | E].
  - cbn [append]. rewrite !occurs_caret_cons, IH. reflexivity.
  - rewrite occurs_caret_cons, IH.
    destruct (ascii_dec "^" c); [contradiction | reflexivity].
Qed.

Lemma prefix_mod_inv s :
  prefix "mod" s = true -> exists t, s = "mod" ++ t.
Proof.
  destruct s as [ | c1 [ | c2 [ | c3 s]]]; try discriminate.
  - now rewrite prefix_mod_1.
  - now rewrite prefix_mod_2.
  - intros H. apply prefix_mod_3 in H as (-> & -> & ->). now exists s.
Qed.

Lemma replace_mod_miss c s :
  prefix "mod" (String c s) = false ->
  replace "mod" "%" (String c s) = String c (replace "mod" "%" s).
Proof. intros H. unfold replace. now rewrite replace_from_0, H. Qed.

Lemma replace_mod_hit t :
  replace "mod" "%" ("mod" ++ t) = "%" ++ replace "mod" "%" t.
Proof. exact (replace_mod_head t). Qed.

(** An induction principle that follows the scan of [replace "mod"]: an
    occurrence is skipped as a whole, another character is passed. *)
Lemma mod_scan_ind (P : string -> Prop) :
  P "" ->
  (forall t, P t -> P ("mod" ++ t)) ->
  (forall c s, prefix "mod" (String c s) = false -> P s -> P (String c s)) ->
  forall s, P s.
Proof.
  intros H0 Hhit Hmiss s.
  assert (G : forall n s, (String.length s <= n)%nat -> P s).
  { clear s. induction n as [ | n IH]; intros s Hn.
    - destruct s; [exact H0 | simpl in Hn; lia].
    - destruct s as [ | c s]; [exact H0 | ].
      destruct (prefix "mod" (String c s)) eqn:E.
      + destruct (prefix_mod_inv _ E) as [t Et]. rewrite Et.
        apply Hhit, IH. rewrite Et in Hn. simpl in Hn. lia.
      + apply Hmiss; [exact E | ]. apply IH. simpl in Hn. lia. }
  exact (G (String.length s) s (le_n _)).
Qed.

(** The head of the result is [%] or the head of the argument. *)
Lemma replace_mod_first c r s :
  replace "mod" "%" s = String c r ->
  c = "%"%char \/ exists s', s = String c s' /\ prefix "mod" s = false
                             /\ r = replace "mod" "%" s'.
Proof.
  destruct s as [ | c' s]; [discriminate | ].
  destruct (prefix "mod" (String c' s)) eqn:E.
  - destruct (prefix_mod_inv _ E) as [t Et]. rewrite Et, replace_mod_hit.
    cbn [append]. intros [= <- _]. now left.
  - rewrite (replace_mod_miss _ _ E). intros [= -> <-]. right.
    now exists s.
Qed.

Lemma prefix_mod_after_replace c s :
  prefix "mod" (String c s) = false ->
  prefix "mod" (String c (replace "mod" "%" s)) = false.
Proof.
  intros H. destruct (prefix "mod" (String c (replace "mod" "%" s))) eqn:E;
    [ | reflexivity].
  exfalso. destruct (prefix_mod_inv _ E) as [t Et].
  cbn [append] in Et. injection Et as -> Et.
  apply replace_mod_first in Et as [Et | (s1 & -> & _ & Et)];
    [discriminate | ].
  symmetry in Et.
  apply replace_mod_first in Et as [Et | (s2 & -> & _ & Et)];
    [discriminate | ].
  pose proof (prefix_mod_head s2) as G. cbn [append] in G. congruence.
Qed.

Lemma no_mod_after_replace s : occurs "mod" (replace "mod" "%" s) = false.
Proof.
  induction s as [ | t IH | c s E IH] using mod_scan_ind.
  - reflexivity.
  - rewrite replace_mod_hit. cbn [append]. rewrite occurs_cons, IH.
    reflexivity.
  - rewrite (replace_mod_miss _ _ E), occurs_cons, IH.
    now rewrite (prefix_mod_after_replace _ _ E).
Qed.

Lemma no_caret_through_replace_mod s :
  occurs "^" s = false -> occurs "^" (replace "mod" "%" s) = false.
Proof.
  induction s as [ | t IH | c s E IH] using mod_scan_ind.
  - reflexivity.
  - intros H. rewrite replace_mod_hit. cbn [append] in *.
    rewrite !occurs_caret_cons in H. rewrite occurs_caret_cons.
    apply IH. cbn in H. exact H.
  - intros H. rewrite (replace_mod_miss _ _ E).
    rewrite occurs_caret_cons in *. apply orb_false_iff in H as [H1 H2].
    now rewrite H1, IH.
Qed.

Lemma normalize_absent s :
  occurs "^" s = false -> occurs "mod" s = false -> normalize s = s.
Proof.
  intros H1 H2. unfold normalize.
  now rewrite (replace_absent _ _ _ H1), (replace_absent _ _ _ H2).
Qed.

Lemma normalize_clean s :
  occurs "^" (normalize s) = false /\ occurs "mod" (normalize s) = false.
Proof.
  unfold normalize. split.
  - apply no_caret_through_replace_mod, no_caret_after_replace.
  - apply no_mod_after_replace.
Qed.

(** X1: what reaches [eval] holds no [^] and no occurrence of the three
    letters [mod]; and the pass leaves an expression as it is exactly when
    the expression holds neither. *)
Theorem normalize_leaves_no_caret_no_mod (expression : string) :
  occurs "^" (normalize expression) = false
  /\ occurs "mod" (normalize expression) = false
  /\ (normalize expression = expression
      <-> occurs "^" expression = false
          /\ occurs "mod" expression = false).
Proof.
  destruct (normalize_clean expression) as [H1 H2].
  split; [exact H1 | split; [exact H2 | split]].
  - intros E. rewrite E in H1, H2. auto.
  - intros [G1 G2]. now apply normalize_absent.
Qed.

(** X2: the pass is idempotent: normalizing twice is normalizing once, so
    the calculator gives the same answer on an expression and on its
    normalized form. *)
Theorem normalize_idempotent (expression : string) :
  normalize (normalize expression) = normalize expression
  /\ scientific_calculator (normalize expression)
     = scientific_calculator expression.
Proof.
  destruct (normalize_clean expression) as [H1 H2].
  assert (E : normalize (normalize expression) = normalize expression)
    by now apply normalize_absent.
  split; [exact E | ].
  unfold scientific_calculator. now rewrite E.
Qed.

(** ** The names of the namespace (lines 53-89) *)

Lemma lookup_In id v (d : list (string * value)) :
  lookup id d = Some v -> In (id, v) d.
Proof.
  induction d as [ | [k w] d IH]; [discriminate | ]. cbn [lookup].
  destruct (String.eqb_spec id k) as [-> | _].
  - intros [= ->]. now left.
  - intros H. right. now apply IH.
Qed.

Lemma names_evaluate :
  Forall (fun kv => normalize (fst kv) = fst kv
                    /\ eval (fst kv) safe_dict = Ret (snd kv)) safe_dict.
Proof. repeat constructor. Qed.

(** X3: every name that [safe_dict] binds can be used: the normalization
    pass leaves it as it is (none holds [^] or [mod]), it is read as one
    identifier, and the expression made of the name alone evaluates to the
    value bound to it. *)
Theorem every_registry_name_is_reachable (id : string) (v : value) :
  lookup id safe_dict = Some v ->
  normalize id = id /\ eval (normalize id) safe_dict = Ret v.
Proof.
  intros H. apply lookup_In in H.
  pose proof (proj1 (Forall_forall _ _) names_evaluate _ H) as [H1 H2].
  cbn [fst snd] in *. now rewrite H1.
Qed.

Lemma every_registry_name_is_reachable_witness :
  normalize "ln" = "ln"
  /\ eval (normalize "ln") safe_dict = Ret (VFun math_log).
Proof.
  exact (every_registry_name_is_reachable "ln" (VFun math_log) eq_refl).
Defined.

(** ** Integer literals (lines 85-89 and 121-122) *)

Lemma Z_of_digits_acc d : forall acc,
  Z_of_digits (Zpos acc) (NilEmpty.string_of_uint d)
  = Zpos (Pos.of_uint_acc d acc).
Proof.
  induction d; intros acc;
    cbn [NilEmpty.string_of_uint Z_of_digits Pos.of_uint_acc];
    [reflexivity | rewrite <- IHd; f_equal ..];
    match goal with
    | |- context [Z.of_nat ?n] =>
        let v := eval vm_compute in (Z.of_nat n) in
        change (Z.of_nat n) with v
    end; lia.
Qed.

Lemma span_digits d :
  span is_digit (NilEmpty.string_of_uint d)
  = (NilEmpty.string_of_uint d, EmptyString).
Proof.
  induction d; cbn [NilEmpty.string_of_uint span];
    [reflexivity | rewrite IHd; reflexivity ..].
Qed.

Lemma length_digits d :
  String.length (NilEmpty.string_of_uint d) = Decimal.nb_digits d.
Proof. induction d; cbn; congruence. Qed.

Lemma of_uint_acc_lower d : forall acc,
  Zpos acc * 10 ^ Z.of_nat (Decimal.nb_digits d)
  <= Zpos (Pos.of_uint_acc d acc).
Proof.
  induction d; intros acc; cbn [Decimal.nb_digits Pos.of_uint_acc];
    [ cbn; lia
    | rewrite Nat2Z.inj_succ, Z.pow_succ_r by lia;
      match goal with
      | |- _ <= Zpos (Pos.of_uint_acc _ ?a) =>
          specialize (IHd a);
          assert (0 < 10 ^ Z.of_nat (Decimal.nb_digits d))
            by (apply Z.pow_pos_nonneg; lia);
          nia
      end .. ].
Qed.

Lemma digits_no_operator d :
  occurs "^" (NilEmpty.string_of_uint d) = false
  /\ occurs "mod" (NilEmpty.string_of_uint d) = false.
Proof.
  induction d as [ | d [H1 H2] | d [H1 H2] | d [H1 H2] | d [H1 H2]
                 | d [H1 H2] | d [H1 H2] | d [H1 H2] | d [H1 H2]
                 | d [H1 H2] | d [H1 H2] ];
    cbn [NilEmpty.string_of_uint]; [split; reflexivity | .. ];
    rewrite !occurs_cons, H1, H2; split; reflexivity.
Qed.

Lemma nzhead_leading d :
  Decimal.nzhead d = Decimal.Nil \/ leading (Decimal.nzhead d) = true.
Proof. induction d; cbn; auto. Qed.

(** The digits of a positive number do not start with a zero. *)
Lemma to_uint_leading p : leading (Pos.to_uint p) = true.
Proof.
  pose proof (DecimalPos.Unsigned.to_of (Pos.to_uint p)) as H.
  rewrite DecimalPos.Unsigned.of_to in H. cbn [N.to_uint] in H.
  pose proof (DecimalPos.Unsigned.to_uint_nonzero p) as Hz.
  unfold Decimal.unorm in H.
  destruct (nzhead_leading (Pos.to_uint p)) as [E | E].
  - rewrite E in H. congruence.
  - destruct (Decimal.nzhead (Pos.to_uint p)); try discriminate;
      rewrite H; reflexivity.
Qed.

Lemma str_int_pos p :
  str_int (Zpos p) = NilEmpty.string_of_uint (Pos.to_uint p).
Proof.
  unfold str_int, digits_of. cbn [Z.to_int NilZero.string_of_int].
  pose proof (to_uint_leading p). now destruct (Pos.to_uint p).
Qed.

Lemma str_int_neg p : str_int (Zneg p) = String "-" (str_int (Zpos p)).
Proof. reflexivity. Qed.

Lemma int_max_str_eq : int_max_str = 10 ^ 4300.
Proof. vm_compute. reflexivity. Qed.

Lemma int_max_str_le (k : nat) :
  (4299 < k)%nat -> int_max_str <= 10 ^ Z.of_nat k.
Proof.
  intros H. rewrite int_max_str_eq. apply Z.pow_le_mono_r; lia.
Qed.

Lemma append_empty_r (s : string) : s ++ EmptyString = s.
Proof. induction s; cbn; congruence. Qed.

Lemma lex_number_pos p :
  Zpos p < int_max_str ->
  lex_number (str_int (Zpos p)) = Some (TInt (Zpos p), EmptyString).
Proof.
  intros Hp. rewrite str_int_pos.
  pose proof (to_uint_leading p) as Hl.
  pose proof (DecimalPos.Unsigned.of_to p) as Hv.
  assert (Hlen : (String.length (NilEmpty.string_of_uint (Pos.to_uint p))
                  <= 4300)%nat).
  { rewrite length_digits.
    destruct (Pos.to_uint p) as [ | d | d | d | d | d | d | d | d | d | d ];
      try discriminate; cbn [Pos.of_uint Decimal.nb_digits] in Hv |- *;
      injection Hv as Hv;
      match type of Hv with
      | Pos.of_uint_acc _ ?a = _ => pose proof (of_uint_acc_lower d a) as Hb
      end;
      rewrite Hv in Hb;
      destruct (Nat.le_gt_cases (Decimal.nb_digits d) 4299) as [ | Hgt];
      try lia;
      pose proof (int_max_str_le (Decimal.nb_digits d) Hgt);
      assert (0 < 10 ^ Z.of_nat (Decimal.nb_digits d))
        by (apply Z.pow_pos_nonneg; lia);
      lia. }
  assert (Hval : Z_of_digits 0 (NilEmpty.string_of_uint (Pos.to_uint p))
                 = Zpos p).
  { destruct (Pos.to_uint p); try discriminate;
      cbn [Pos.of_uint NilEmpty.string_of_uint Z_of_digits] in *;
      injection Hv as Hv;
      match goal with
      | |- Z_of_digits ?a _ = _ =>
          let a' := eval vm_compute in a in change a with a'
      end;
      rewrite Z_of_digits_acc, Hv; reflexivity. }
  unfold lex_number, scan_number.
  rewrite span_digits. cbn [starts_with]. rewrite append_empty_r.
  apply Nat.ltb_ge in Hlen.
  destruct (Pos.to_uint p); try discriminate;
    cbn [NilEmpty.string_of_uint] in *; rewrite Hval;
    cbn [starts_with orb tail]; rewrite Hlen; reflexivity.
Qed.

Lemma tokenize_pos p :
  Zpos p < int_max_str ->
  tokenize (str_int (Zpos p)) = Some [TInt (Zpos p)].
Proof.
  intros Hp. pose proof (lex_number_pos p Hp) as Hn.
  unfold tokenize. rewrite str_int_pos in *.
  pose proof (to_uint_leading p) as Hl.
  destruct (Pos.to_uint p); try discriminate;
    cbn [NilEmpty.string_of_uint String.length] in *;
    cbn [lex]; cbn [is_space is_digit nat_of_ascii];
    match goal with
    | |- context [lex_number ?s] =>
        change (match lex_number s with
                | Some (t, rest) =>
                    match lex (S (String.length
                                    (NilEmpty.string_of_uint u))) rest with
                    | Some ts => Some (t :: ts)
                    | None => None
                    end
                | None => None
                end = Some [TInt (Zpos p)])
    end;
    rewrite Hn; reflexivity.
Qed.

Lemma tokenize_neg p :
  Zpos p < int_max_str ->
  tokenize (str_int (Zneg p)) = Some [TMinus; TInt (Zpos p)].
Proof.
  intros Hp. pose proof (tokenize_pos p Hp) as H. unfold tokenize in *.
  rewrite str_int_neg.
  change (lex (S (String.length (String "-" (str_int (Zpos p)))))
              (String "-" (str_int (Zpos p))))
    with (match lex (S (String.length (str_int (Zpos p)))) (str_int (Zpos p))
          with
          | Some ts => Some (TMinus :: ts)
          | None => None
          end).
  now rewrite H.
Qed.

Lemma str_int_no_operator n :
  occurs "^" (str_int n) = false /\ occurs "mod" (str_int n) = false.
Proof.
  destruct n as [ | p | p].
  - split; reflexivity.
  - rewrite str_int_pos. apply digits_no_operator.
  - rewrite str_int_neg, str_int_pos, !occurs_cons.
    destruct (digits_no_operator (Pos.to_uint p)) as [-> ->].
    split; reflexivity.
Qed.

Lemma eval_int_literal n :
  Z.abs n < int_max_str ->
  eval (str_int n) safe_dict = Ret (VInt n).
Proof.
  intros Hn. unfold eval, parse. destruct n as [ | p | p].
  - reflexivity.
  - rewrite (tokenize_pos p Hn). cbn [nesting_ok].
    change [TInt (Zpos p)] with (unparse 0 (Constant (VInt (Zpos p)))).
    now rewrite (parse_unparse (Constant (VInt (Zpos p))) eq_refl).
  - rewrite (tokenize_neg p Hn). cbn [nesting_ok].
    change [TMinus; TInt (Zpos p)]
      with (unparse 0 (UnaryOp USub (Constant (VInt (Zpos p))))).
    now rewrite (parse_unparse (UnaryOp USub (Constant (VInt (Zpos p))))
                   eq_refl).
Qed.

(** X4: the calculator gives an integer back as it was written: for every
    integer of at most 4300 digits, the decimal text of the integer
    evaluates to that integer, and the calculator returns that same text
    (no rounding, no exponent, whatever the size). *)
Theorem integer_literal_round_trip (n : Z) :
  Z.abs n < 10 ^ 4300 ->
  eval (str_int n) safe_dict = Ret (VInt n)
  /\ scientific_calculator (str_int n) = Ret (str_int n).
Proof.
  rewrite <- int_max_str_eq. intros Hn.
  split; [now apply eval_int_literal | ].
  unfold scientific_calculator.
  destruct (str_int_no_operator n) as [H1 H2].
  rewrite (normalize_absent _ H1 H2), (eval_int_literal n Hn).
  unfold calculator_body. cbn [bind format_result str try_except].
  apply Z.ltb_lt in Hn. now rewrite Hn.
Qed.

Lemma integer_literal_round_trip_witness :
  scientific_calculator "-2024" = Ret "-2024".
Proof.
  refine (proj2 (integer_literal_round_trip (- 2024) _)).
  vm_compute. reflexivity.
Defined.

(** ** The formatter (lines 92-122) *)

Lemma append_assoc (a b c : string) : (a ++ b) ++ c = a ++ b ++ c.
Proof. induction a; cbn; congruence. Qed.

Lemma bind_ret_inv {A B : Type} (c : comp A) (k : A -> comp B) b :
  bind c k = Ret b -> exists a, c = Ret a /\ k a = Ret b.
Proof. destruct c; try discriminate. cbn. eauto. Qed.

Lemma trunc_bound x :
  binary64 x = true ->
  Z.abs (match trunc x with Some n => n | None => 0 end)
  <= 2 ^ 1024 - 2 ^ 971.
Proof.
  intros Hv. destruct x as [s | s | | s m e]; try (cbn; lia).
  apply binary64_bounds in Hv as [Hm He]. unfold trunc.
  assert (Ha : forall a, 0 <= a <= 2 ^ 1024 - 2 ^ 971 ->
                         Z.abs (if s then - a else a) <= 2 ^ 1024 - 2 ^ 971).
  { intros a Ha. destruct s; lia. }
  apply Ha. clear Ha.
  destruct (0 <=? e) eqn:E.
  - apply Z.leb_le in E.
    assert (H2 : 0 < 2 ^ e <= 2 ^ 971).
    { split; [apply Z.pow_pos_nonneg; lia | apply Z.pow_le_mono_r; lia]. }
    replace (2 ^ 1024 - 2 ^ 971) with ((2 ^ 53 - 1) * 2 ^ 971) by reflexivity.
    split; [lia | ]. apply Z.mul_le_mono_nonneg; lia.
  - apply Z.leb_gt in E.
    assert (HD : 0 < 2 ^ (- e)) by (apply Z.pow_pos_nonneg; lia).
    pose proof (Z.div_le_upper_bound (Zpos m) (2 ^ (- e)) (Zpos m) HD) as Hq.
    assert (Hq' : Zpos m / 2 ^ (- e) <= Zpos m) by (apply Hq; nia).
    assert (Hq0 : 0 <= Zpos m / 2 ^ (- e)) by (apply Z.div_pos; lia).
    assert (Hbig : 2 ^ 53 + 1 <= 2 ^ 1024 - 2 ^ 971)
      by (vm_compute; discriminate).
    lia.
Qed.

Lemma near_integer_finite r :
  binary64 r = true -> is_finite r = true ->
  exists b, near_integer r = Ret b.
Proof.
  intros Hv Hf. pose proof (nearest_integer_bound r Hv) as Hb.
  unfold near_integer, py_round, int_of_float, float_sub_int, float_of_int,
    nearest_integer in *.
  destruct (round_half_even r) as [n | ] eqn:En.
  2: { destruct r; discriminate. }
  assert (Hfit : fits_double n = true).
  { unfold fits_double. apply Z.ltb_lt.
    assert (2 ^ 971 > 2 ^ 970) by (vm_compute; reflexivity). lia. }
  cbn [bind]. rewrite Hfit. cbn [bind]. eauto.
Qed.

Lemma part_str_finite r :
  binary64 r = true -> is_finite r = true -> exists s, part_str r = Ret s.
Proof.
  intros Hv Hf. unfold part_str.
  destruct (near_integer_finite r Hv Hf) as [b ->]. cbn [bind].
  destruct b; [ | eauto].
  unfold py_int, int_of_float.
  pose proof (trunc_bound r Hv) as En.
  destruct (trunc r) as [n | ] eqn:Et.
  2: { destruct r; discriminate. }
  cbn [bind str].
  assert (Hstr : (Z.abs n <? int_max_str) = true).
  { apply Z.ltb_lt.
    assert (2 ^ 1024 - 2 ^ 971 < int_max_str) by (vm_compute; reflexivity).
    lia. }
  rewrite Hstr. eauto.
Qed.

Lemma near_integer_non_finite {A} x (k : bool -> comp A) :
  is_finite x = false -> bind (near_integer x) k = Raise (round_error x).
Proof.
  destruct x as [s | s | | s m e]; intros H;
    [discriminate H | reflexivity | reflexivity | discriminate H].
Qed.

Lemma format_real_non_finite x :
  is_finite x = false -> format_real x = Raise (round_error x).
Proof.
  destruct x as [s | s | | s m e]; intros H;
    [discriminate H | reflexivity | reflexivity | discriminate H].
Qed.

Lemma small_is_finite x : ltb (abs x) eps = true -> is_finite x = true.
Proof.
  destruct x as [s | s | | s m e]; intros H;
    [ reflexivity
    | destruct s; vm_compute in H; discriminate H
    | vm_compute in H; discriminate H
    | reflexivity ].
Qed.

Lemma format_non_finite v x :
  binary64_value v = true -> non_finite_part v = Some x ->
  format_result v = Raise (round_error x).
Proof.
  destruct v as [n | y | re im | f | ]; try discriminate;
    cbn [non_finite_part].
  - intros _. destruct (is_finite y) eqn:E; [discriminate | ].
    intros [= <-]. now apply format_real_non_finite.
  - cbn [binary64_value]. intros Hv. apply andb_true_iff in Hv as [Hre Him].
    cbn [format_result]. destruct (is_finite re) eqn:Ere.
    + destruct (is_finite im) eqn:Eim; [discriminate | ]. intros [= <-].
      destruct (ltb (abs im) eps) eqn:Es.
      { apply small_is_finite in Es. congruence. }
      destruct (part_str_finite re Hre Ere) as [s ->]. cbn [bind].
      unfold part_str. rewrite near_integer_non_finite by exact Eim.
      reflexivity.
    + intros [= <-]. destruct (ltb (abs im) eps).
      * now apply format_real_non_finite.
      * unfold part_str. rewrite near_integer_non_finite by exact Ere.
        reflexivity.
Qed.

(** X5: a float or complex result with an infinite or NaN part is never
    printed: the formatter calls [round] on it, which raises, and the
    calculator returns the overflow text for an infinity and the
    invalid-operation text for a NaN (the first such part, real part
    first, decides). *)
Theorem non_finite_results_are_errors (v : value) (x : float) :
  binary64_value v = true -> non_finite_part v = Some x ->
  calculator_body (Ret v)
  = Ret (if is_nan x
         then "Error: Invalid mathematical operation - cannot convert float NaN to integer"
         else "Error: Result too large to compute").
Proof.
  intros Hv Hx. unfold calculator_body. cbn [bind].
  rewrite (format_non_finite v x Hv Hx). unfold round_error.
  destruct (is_nan x); reflexivity.
Qed.

Lemma non_finite_results_are_errors_witness :
  calculator_body (Ret (VComplex one (neg inf)))
  = Ret "Error: Result too large to compute"
  /\ calculator_body (Ret (VFloat nan))
     = Ret "Error: Invalid mathematical operation - cannot convert float NaN to integer".
Proof.
  split.
  - exact (non_finite_results_are_errors (VComplex one (neg inf)) (neg inf)
             eq_refl eq_refl).
  - exact (non_finite_results_are_errors (VFloat nan) nan eq_refl eq_refl).
Defined.

(** X6: whenever the formatter renders a complex result whose imaginary
    part is not below [1e-10], the text ends with the letter [j]. *)
Theorem complex_text_ends_in_j (re im : float) (s : string) :
  ltb (abs im) eps = false ->
  format_result (VComplex re im) = Ret s ->
  exists t, s = t ++ "j".
Proof.
  intros Him. cbn [format_result]. rewrite Him. intros H.
  apply bind_ret_inv in H as (real_str & _ & H).
  apply bind_ret_inv in H as (imag_str & _ & H).
  destruct (eqb re zero).
  - destruct (negb (eqb im one)).
    + injection H as <-. eauto.
    + destruct (eqb im one); injection H as <-;
        [now exists "" | now exists "-"].
  - apply bind_ret_inv in H as (imag_part & Hp & H). injection H as <-.
    assert (G : exists u, imag_part = u ++ "j").
    { destruct (leb zero im).
      - destruct (negb (eqb im one)); injection Hp as <-.
        + exists (" + " ++ imag_str). now rewrite append_assoc.
        + now exists " + ".
      - destruct (negb (eqb im (neg one))).
        + apply bind_ret_inv in Hp as (y & _ & Hp). injection Hp as <-.
          exists (" - " ++ repr (abs y)). now rewrite append_assoc.
        + injection Hp as <-. now exists " - ". }
    destruct G as [u ->]. exists (real_str ++ u). now rewrite append_assoc.
Qed.

Lemma complex_text_ends_in_j_witness :
  exists t, "3 - 2.0j" = t ++ "j".
Proof.
  exact (complex_text_ends_in_j (of_Z 3) (of_Z (- 2)) "3 - 2.0j"
           eq_refl eq_refl).
Defined.

(** ** The lambdas of the namespace (lines 62, 68 and 75-77) *)

Lemma neg_involutive (x : float) : neg (neg x) = x.
Proof.
  destruct x as [s | s | | s m e]; cbn; now rewrite ?negb_involutive.
Qed.

(** X7: [conjugate] is an involution on every value (it negates the
    imaginary part of a complex number and returns anything else as it
    is); [complex(real(z), imag(z))] rebuilds a complex [z]; and on a value
    that is not complex [real] returns the value itself and [imag] the
    integer [0]. *)
Theorem complex_parts_round_trip :
  (forall v : value,
      exists w, apply_builtin lambda_conjugate [v] = Ret w
                /\ apply_builtin lambda_conjugate [w] = Ret v)
  /\ (forall re im : float,
         apply_builtin lambda_conjugate [VComplex re im]
         = Ret (VComplex re (neg im))
         /\ (re' <- apply_builtin lambda_real [VComplex re im] ;;
             im' <- apply_builtin lambda_imag [VComplex re im] ;;
             apply_builtin builtin_complex [re'; im'])
            = Ret (VComplex re im))
  /\ (forall v : value,
         (forall re im, v <> VComplex re im) ->
         apply_builtin lambda_real [v] = Ret v
         /\ apply_builtin lambda_imag [v] = Ret (VInt 0)
         /\ apply_builtin lambda_conjugate [v] = Ret v).
Proof.
  split; [ | split].
  - intros [n | x | re im | f | ]; try (eexists; split; reflexivity).
    exists (VComplex re (neg im)). cbn. now rewrite neg_involutive.
  - intros re im. split; reflexivity.
  - intros [n | x | re im | f | ] H; try (repeat split; reflexivity).
    now destruct (H re im).
Qed.

Lemma complex_parts_round_trip_witness :
  apply_builtin lambda_real [VFloat one] = Ret (VFloat one)
  /\ apply_builtin lambda_imag [VFloat one] = Ret (VInt 0)
  /\ apply_builtin lambda_conjugate [VFloat one] = Ret (VFloat one).
Proof.
  refine (proj2 (proj2 complex_parts_round_trip) (VFloat one) _).
  discriminate.
Defined.

Lemma lcm_quotient (a b : Z) :
  Z.gcd a b <> 0 -> Z.abs (a * b) / Z.gcd a b = long_lcm a b.
Proof.
  intros Hg. unfold long_lcm.
  pose proof (Z.gcd_nonneg a b) as Hn.
  destruct (a =? 0) eqn:Ea; [apply Z.eqb_eq in Ea | apply Z.eqb_neq in Ea].
  - subst a. cbn [orb]. rewrite Z.mul_0_l. now apply Z.div_0_l.
  - destruct (b =? 0) eqn:Eb; [apply Z.eqb_eq in Eb | apply Z.eqb_neq in Eb];
      cbn [orb].
    + subst b. rewrite Z.mul_0_r. now apply Z.div_0_l.
    + destruct (Z.gcd_divide_l a b) as [a' Ha].
      set (g := Z.gcd a b) in *.
      replace (a / g) with a' by (rewrite Ha; symmetry; now apply Z.div_mul).
      replace (a * b) with (a' * b * g) by (rewrite Ha; ring).
      rewrite Z.abs_mul, (Z.abs_eq g) by lia. now apply Z.div_mul.
Qed.

(** X8: the fallback bound to [lcm] on an interpreter without [math.lcm]
    computes the same integer as [math.lcm] (the least common multiple)
    on every pair of integers that are not both zero; on [(0, 0)]
    [math.lcm] gives [0] and the fallback divides by zero. *)
Theorem lcm_fallback_agrees_with_math_lcm (a b : Z) :
  long_lcm a b = Z.lcm a b
  /\ (a <> 0 \/ b <> 0 ->
      lambda_lcm (VInt a) (VInt b) = Ret (VInt (long_lcm a b))
      /\ apply_builtin math_lcm [VInt a; VInt b] = Ret (VInt (long_lcm a b)))
  /\ long_lcm 0 0 = 0
  /\ lambda_lcm (VInt 0) (VInt 0)
     = raise ZeroDivisionError "integer division or modulo by zero".
Proof.
  split; [ | split; [ | split; reflexivity]].
  - unfold long_lcm, Z.lcm.
    destruct (a =? 0) eqn:Ea; [apply Z.eqb_eq in Ea | apply Z.eqb_neq in Ea].
    + subst a. reflexivity.
    + destruct (b =? 0) eqn:Eb; [apply Z.eqb_eq in Eb | apply Z.eqb_neq in Eb];
        cbn [orb].
      * subst b. rewrite Z.gcd_0_r.
        replace (0 / Z.abs a) with 0 by (symmetry; apply Z.div_0_l; lia).
        now rewrite Z.mul_0_r.
      * f_equal.
        destruct (Z.gcd_divide_l a b) as [a' Ha].
        destruct (Z.gcd_divide_r a b) as [b' Hb].
        assert (Hg : Z.gcd a b <> 0).
        { intros H. apply Z.gcd_eq_0 in H. tauto. }
        set (g := Z.gcd a b) in *.
        replace (a / g) with a' by (rewrite Ha; symmetry; now apply Z.div_mul).
        replace (b / g) with b' by (rewrite Hb; symmetry; now apply Z.div_mul).
        rewrite Hb at 1. rewrite Ha at 1. ring.
  - intros H.
    assert (Hg : Z.gcd a b <> 0).
    { intros E. apply Z.gcd_eq_0 in E. lia. }
    unfold lambda_lcm.
    cbn [binary int_op bind apply_builtin].
    apply Z.eqb_neq in Hg. rewrite Hg.
    apply Z.eqb_neq in Hg. now rewrite lcm_quotient.
Qed.

Lemma lcm_fallback_agrees_with_math_lcm_witness :
  lambda_lcm (VInt 4) (VInt (- 6)) = Ret (VInt 12)
  /\ apply_builtin math_lcm [VInt 4; VInt (- 6)] = Ret (VInt 12).
Proof.
  refine (proj1 (proj2 (lcm_fallback_agrees_with_math_lcm 4 (- 6))) _).
  left. discriminate.
Defined.

(** X9: [cbrt] of a float that is not negative (zero of either sign, a
    positive number, plus infinity) is real: zero, one and infinity are
    returned exactly, any other argument gives [pow(x, 1/3)] of the C
    library or an overflow error; the result is never complex. *)
Theorem cbrt_of_non_negative_is_real host (x : float) :
  leb zero x = true ->
  run host (apply_builtin lambda_cbrt [VFloat x]) = real_cube_root host x
  /\ forall re im,
       run host (apply_builtin lambda_cbrt [VFloat x])
       <> Returned (VComplex re im).
Proof.
  intros Hx.
  assert (G : run host (apply_builtin lambda_cbrt [VFloat x])
              = real_cube_root host x).
  { change (apply_builtin lambda_cbrt [VFloat x]) with (float_pow x third).
    unfold real_cube_root. rewrite third_value.
    set (t := S754_finite false 6004799503160661 (- 54)).
    unfold float_pow.
    change (is_zero t) with false. change (is_nan t) with false.
    change (is_inf t) with false.
    change (is_odd_integer t) with false.
    change (ltb zero t) with true. change (ltb t zero) with false.
    destruct x as [s | s | | s m e].
    - reflexivity.
    - destruct s; [discriminate Hx | reflexivity].
    - discriminate Hx.
    - destruct s; [discriminate Hx | ].
      cbn [is_nan is_inf is_zero].
      change (ltb (S754_finite false m e) zero) with false.
      cbn [andb abs SFabs].
      destruct (eqb (S754_finite false m e) one); [reflexivity | ].
      cbn [bind libm run]. cbv zeta.
      match goal with
      | |- context [is_inf ?r] => destruct (is_inf r)
      end; reflexivity. }
  split; [exact G | ].
  intros re im. rewrite G. unfold real_cube_root.
  destruct (is_zero x); [discriminate | ].
  destruct (is_inf x); [discriminate | ].
  destruct (eqb x one); [discriminate | ].
  destruct (is_inf _); discriminate.
Qed.

Lemma cbrt_of_non_negative_is_real_witness :
  run (fun _ _ => of_Z 3) (apply_builtin lambda_cbrt [VFloat (of_Z 27)])
  = Returned (VFloat (of_Z 3)).
Proof.
  exact (proj1 (cbrt_of_non_negative_is_real (fun _ _ => of_Z 3) (of_Z 27)
                  eq_refl)).
Defined.

(** ** Evaluation (line 89) *)

(** X10: a name of the namespace that is not bound to a function (a
    constant, or [__builtins__]) cannot be called: once its arguments are
    evaluated, the call raises [TypeError] and the calculator returns
    ["Error: Invalid expression type - '<type>' object is not callable"]. *)
Theorem constant_is_not_callable host (id : string) (v : value)
    (args : list expr) (vs : list value) :
  lookup id safe_dict = Some v ->
  (forall f, v <> VFun f) ->
  run host (eval_args (eval_expr safe_dict) args) = Returned vs ->
  run host (calculator_body (eval_expr safe_dict (Call (Name id) args)))
  = Returned ("Error: Invalid expression type - '" ++ type_name v
              ++ "' object is not callable").
Proof.
  intros Hl Hv Ha. rewrite run_calculator_body.
  cbn [eval_expr]. rewrite Hl. cbn [bind].
  rewrite !run_bind, Ha.
  destruct v as [n | x | re im | f | ]; try reflexivity.
  now destruct (Hv f).
Qed.

Lemma constant_is_not_callable_witness :
  run (fun _ _ => nan)
      (calculator_body
         (eval_expr safe_dict (Call (Name "pi") [Constant (VInt 2)])))
  = Returned "Error: Invalid expression type - 'float' object is not callable".
Proof.
  refine (constant_is_not_callable (fun _ _ => nan) "pi" (VFloat math_pi)
            [Constant (VInt 2)] [VInt 2] eq_refl _ eq_refl).
  discriminate.
Defined.

(** X11: on integers with a divisor other than zero, [//] and [%] (which
    [mod] is rewritten to) are the floored quotient and its remainder: the
    remainder has the sign of the divisor and is smaller in magnitude, and
    [(a // b) * b + a % b] evaluates to [a]. *)
Theorem floor_division_and_modulo (a b : Z) :
  b <> 0 ->
  binary FloorDiv (VInt a) (VInt b) = Ret (VInt (a / b))
  /\ binary Mod (VInt a) (VInt b) = Ret (VInt (a mod b))
  /\ a = (a / b) * b + a mod b
  /\ (0 <= a mod b < b \/ b < a mod b <= 0)
  /\ eval_expr safe_dict
       (BinOp (BinOp (BinOp (Constant (VInt a)) FloorDiv (Constant (VInt b)))
                     Mult (Constant (VInt b)))
              Add (BinOp (Constant (VInt a)) Mod (Constant (VInt b))))
     = Ret (VInt a).
Proof.
  intros Hb. pose proof (Z.div_mod a b Hb) as Hd.
  assert (E : (b =? 0) = false) by now apply Z.eqb_neq.
  cbn [binary int_op eval_expr bind]. rewrite E. cbn [bind binary int_op].
  repeat split; try lia.
  - destruct (Z.lt_total b 0) as [H | [H | H]]; [right | contradiction | left].
    + pose proof (Z.mod_neg_bound a b H). lia.
    + pose proof (Z.mod_pos_bound a b H). lia.
  - do 2 f_equal. lia.
Qed.

Lemma floor_division_and_modulo_witness :
  binary FloorDiv (VInt (- 7)) (VInt 2) = Ret (VInt (- 4))
  /\ binary Mod (VInt (- 7)) (VInt 2) = Ret (VInt 1).
Proof.
  destruct (floor_division_and_modulo (- 7) 2 ltac:(discriminate))
    as (H1 & H2 & _).
  split; [exact H1 | exact H2].
Defined.

(** ** The rounding functions (lines 64-65) *)

Lemma to_integer_non_finite conv x :
  conv x = None ->
  to_integer conv (VFloat x) = Raise (round_error x).
Proof.
  intros H. unfold to_integer, int_of_float, round_error. rewrite H.
  destruct (is_nan x); reflexivity.
Qed.

Lemma floor_ceil_finite (s : bool) (m : positive) (e : Z) :
  exists f c t r,
    floor (S754_finite s m e) = Some f
    /\ ceil (S754_finite s m e) = Some c
    /\ trunc (S754_finite s m e) = Some t
    /\ round_half_even (S754_finite s m e) = Some r
    /\ f <= c <= f + 1
    /\ (c = f <-> is_integral (S754_finite s m e) = true)
    /\ t = (if s then c else f)
    /\ f <= r <= c.
Proof.
  unfold ceil, floor, trunc, round_half_even, is_integral, neg.
  cbn [SFopp].
  destruct (0 <=? e) eqn:E.
  - do 4 eexists. repeat split; try reflexivity; destruct s; cbn [negb]; lia.
  - apply Z.leb_gt in E. cbn [orb].
    assert (HD : 0 < 2 ^ (- e)) by (apply Z.pow_pos_nonneg; lia).
    set (d := 2 ^ (- e)) in *.
    pose proof (Z.div_mod (Zpos m) d ltac:(lia)) as H1.
    pose proof (Z.mod_pos_bound (Zpos m) d HD) as H2.
    pose proof (Z.div_mod (- Zpos m) d ltac:(lia)) as H3.
    pose proof (Z.mod_pos_bound (- Zpos m) d HD) as H4.
    set (q := Zpos m / d) in *. set (r := Zpos m mod d) in *.
    set (q' := - Zpos m / d) in *. set (r' := - Zpos m mod d) in *.
    assert (Hq : (r = 0 /\ q' = - q) \/ (0 < r /\ q' = - q - 1)) by nia.
    do 4 eexists. repeat split; try reflexivity.
    + destruct s; cbn [negb]; fold q q'; lia.
    + destruct s; cbn [negb]; fold q q'; lia.
    + destruct s; cbn [negb]; fold q q'; intros H; apply Z.eqb_eq; lia.
    + destruct s; cbn [negb]; fold q q'; intros H; apply Z.eqb_eq in H; lia.
    + destruct s; cbn [negb]; fold q q'; lia.
    + destruct s; cbn [negb]; fold q q';
        destruct (Z.compare_spec (2 * r) d); try destruct (Z.even q); lia.
    + destruct s; cbn [negb]; fold q q';
        destruct (Z.compare_spec (2 * r) d); try destruct (Z.even q); lia.
Qed.

(** X12: on a finite float [floor], [ceil], [trunc] and [round] return
    integers with [floor <= round <= ceil <= floor + 1], [ceil = floor]
    exactly when the float is an integer, and [trunc] equal to [ceil] for
    a negative float and to [floor] otherwise; on an infinity the four
    raise [OverflowError] and on a NaN [ValueError]. *)
Theorem rounding_functions (x : float) :
  (is_finite x = true ->
   exists f c t r,
     apply_builtin math_floor [VFloat x] = Ret (VInt f)
     /\ apply_builtin math_ceil [VFloat x] = Ret (VInt c)
     /\ apply_builtin math_trunc [VFloat x] = Ret (VInt t)
     /\ apply_builtin builtin_round [VFloat x] = Ret (VInt r)
     /\ f <= c <= f + 1
     /\ (c = f <-> is_integral x = true)
     /\ t = (if signbit x then c else f)
     /\ f <= r <= c)
  /\ (is_finite x = false ->
      apply_builtin math_floor [VFloat x] = Raise (round_error x)
      /\ apply_builtin math_ceil [VFloat x] = Raise (round_error x)
      /\ apply_builtin math_trunc [VFloat x] = Raise (round_error x)
      /\ apply_builtin builtin_round [VFloat x] = Raise (round_error x)).
Proof.
  split; intros Hf.
  - destruct x as [s | s | | s m e]; try discriminate.
    + exists 0, 0, 0, 0. repeat split; try reflexivity; try lia.
      now destruct s.
    + destruct (floor_ceil_finite s m e)
        as (f & c & t & r & H1 & H2 & H3 & H4 & H).
      exists f, c, t, r. cbn [apply_builtin to_integer]. unfold int_of_float.
      rewrite H1, H2, H3, H4. cbn [bind signbit]. auto.
  - cbn [apply_builtin].
    rewrite !to_integer_non_finite; [auto | | | | ];
      destruct x as [s | s | | s m e]; try discriminate; reflexivity.
Qed.

Lemma rounding_functions_witness :
  (exists f c t r,
      apply_builtin math_floor [VFloat (of_decimal (- 25) (- 1))]
      = Ret (VInt f)
      /\ apply_builtin math_ceil [VFloat (of_decimal (- 25) (- 1))]
         = Ret (VInt c)
      /\ apply_builtin math_trunc [VFloat (of_decimal (- 25) (- 1))]
         = Ret (VInt t)
      /\ apply_builtin builtin_round [VFloat (of_decimal (- 25) (- 1))]
         = Ret (VInt r)
      /\ f <= c <= f + 1
      /\ (c = f <-> is_integral (of_decimal (- 25) (- 1)) = true)
      /\ t = (if signbit (of_decimal (- 25) (- 1)) then c else f)
      /\ f <= r <= c)
  /\ apply_builtin math_ceil [VFloat inf]
     = raise OverflowError "cannot convert float infinity to integer".
Proof.
  split.
  - exact (proj1 (rounding_functions (of_decimal (- 25) (- 1))) eq_refl).
  - exact (proj1 (proj2 (proj2 (rounding_functions inf) eq_refl))).
Defined.

(** ** The tool [generate_qr_code] (lines 137-186) *)

(** X13: [generate_qr_code] always returns a text and never raises: the
    fixed message for an error-correction level other than [L], [M], [Q]
    and [H] (and only for those, whatever the package does), ["Error
    generating QR code: "] followed by the message of the exception when an
    operation of the package raises, or the success text; the success
    text is the only one that does not start with ["Error"]. *)
Theorem generate_qr_code_returns_text (qrcode : qrcode_package)
    (data error_correction : string) (border box_size : Z) :
  (exists s,
      generate_qr_code qrcode data error_correction border box_size = Ret s
      /\ (s = invalid_level_text
          \/ (exists e, s = "Error generating QR code: " ++ exn_msg e)
          \/ (exists png, s = success_text data png)))
  /\ (generate_qr_code qrcode data error_correction border box_size
      = Ret invalid_level_text
      <-> ~ In error_correction ["L"; "M"; "Q"; "H"])
  /\ (forall s,
         generate_qr_code qrcode data error_correction border box_size
         = Ret s ->
         prefix "Error" s = false <-> exists png, s = success_text data png).
Proof.
  assert (Hs : forall s,
             s = invalid_level_text
             \/ (exists e, s = "Error generating QR code: " ++ exn_msg e)
             \/ (exists png, s = success_text data png) ->
             prefix "Error" s = false
             <-> exists png, s = success_text data png).
  { intros s [-> | [[e ->] | [png ->]]].
    - split; [discriminate | intros [png H]; discriminate H].
    - split; [discriminate | intros [png H]; discriminate H].
    - split; [eauto | reflexivity]. }
  enough (G : (exists s,
      generate_qr_code qrcode data error_correction border box_size = Ret s
      /\ (s = invalid_level_text
          \/ (exists e, s = "Error generating QR code: " ++ exn_msg e)
          \/ (exists png, s = success_text data png)))
  /\ (generate_qr_code qrcode data error_correction border box_size
      = Ret invalid_level_text
      <-> ~ In error_correction ["L"; "M"; "Q"; "H"])).
  { destruct G as [(s & E & G1) G2]. split; [eauto | split; [exact G2 | ]].
    intros s' E'. rewrite E in E'. injection E' as <-. now apply Hs. }
  clear Hs.
  unfold generate_qr_code.
  assert (Hl : level_of error_correction error_levels = None
               <-> ~ In error_correction ["L"; "M"; "Q"; "H"]).
  { cbn [level_of error_levels In].
    destruct (String.eqb_spec error_correction "L");
      [subst; split; [discriminate | tauto] | ].
    destruct (String.eqb_spec error_correction "M");
      [subst; split; [discriminate | tauto] | ].
    destruct (String.eqb_spec error_correction "Q");
      [subst; split; [discriminate | tauto] | ].
    destruct (String.eqb_spec error_correction "H");
      [subst; split; [discriminate | tauto] | ].
    split; [ | reflexivity]. intros _ H. intuition congruence. }
  destruct (level_of error_correction error_levels) as [level | ].
  - assert (G : exists s,
        try_except
          (qr <- outside (QRCode qrcode 1 level box_size (Z.max border 4)) ;;
           qr <- outside (add_data qrcode qr data) ;;
           qr <- outside (make qrcode qr true) ;;
           img <- outside (make_image qrcode qr "black" "white") ;;
           png <- outside (save qrcode img "PNG") ;;
           Ret (success_text data png))
          (fun e => Ret ("Error generating QR code: " ++ exn_msg e)) = Ret s
        /\ ((exists e, s = "Error generating QR code: " ++ exn_msg e)
            \/ (exists png, s = success_text data png))).
    { destruct (QRCode qrcode 1 level box_size (Z.max border 4)) as [e | qr];
        cbn [outside bind try_except]; [eauto 6 | ].
      destruct (add_data qrcode qr data) as [e | qr1];
        cbn [outside bind try_except]; [eauto 6 | ].
      destruct (make qrcode qr1 true) as [e | qr2];
        cbn [outside bind try_except]; [eauto 6 | ].
      destruct (make_image qrcode qr2 "black" "white") as [e | img];
        cbn [outside bind try_except]; [eauto 6 | ].
      destruct (save qrcode img "PNG") as [e | png];
        cbn [outside bind try_except]; eauto 6. }
    destruct G as (s & -> & G). split.
    + exists s. split; [reflexivity | tauto].
    + split.
      * intros [= ->]. exfalso.
        destruct G as [[e G] | [png G]]; discriminate G.
      * intros H. apply Hl in H. discriminate H.
  - cbn [try_except]. split.
    + exists invalid_level_text. auto.
    + split; [intros _; now apply Hl | reflexivity].
Qed.

Lemma generate_qr_code_returns_text_witness :
  generate_qr_code sample_package "hello" "m" 4 10 = Ret invalid_level_text.
Proof.
  refine (proj2 (proj1 (proj2 (generate_qr_code_returns_text sample_package
                                 "hello" "m" 4 10))) _).
  intros [H | [H | [H | [H | []]]]]; discriminate H.
Defined.

(** X14: the constructor [QRCode] is only called with version 1 and a
    border of at least 4: a border below 4 gives the result of border 4,
    and the tool gives the same result with any constructor that agrees
    with the package's on version 1 and borders from 4 up. *)
Theorem qr_constructor_arguments (qrcode : qrcode_package)
    (data error_correction : string) (border box_size : Z) :
  generate_qr_code qrcode data error_correction border box_size
  = generate_qr_code qrcode data error_correction (Z.max border 4) box_size
  /\ (border <= 4 ->
      generate_qr_code qrcode data error_correction border box_size
      = generate_qr_code qrcode data error_correction 4 box_size)
  /\ (forall ctor,
         (forall level b, 4 <= b ->
                          ctor 1 level box_size b
                          = QRCode qrcode 1 level box_size b) ->
         generate_qr_code (with_constructor qrcode ctor)
           data error_correction border box_size
         = generate_qr_code qrcode data error_correction border box_size).
Proof.
  split; [ | split].
  - unfold generate_qr_code. now rewrite <- Z.max_assoc, Z.max_id.
  - intros H. unfold generate_qr_code. now rewrite Z.max_r.
  - intros ctor H. unfold generate_qr_code.
    destruct (level_of error_correction error_levels) as [level | ];
      [ | reflexivity].
    cbn [with_constructor QRCode add_data make make_image save].
    now rewrite H by lia.
Qed.

Lemma qr_constructor_arguments_witness :
  generate_qr_code sample_package "hello" "M" 0 10
  = generate_qr_code sample_package "hello" "M" 4 10.
Proof.
  refine (proj1 (proj2 (qr_constructor_arguments sample_package
                          "hello" "M" 0 10)) _).
  discriminate.
Defined.

(** ** The echo of the data (line 183) *)

Lemma substring_0_all (s : string) : forall n,
  (String.length s <= n)%nat -> substring 0 n s = s.
Proof.
  induction s as [ | c s IH]; intros [ | n] H; try reflexivity.
  - simpl in H. lia.
  - cbn [substring]. rewrite IH; [reflexivity | simpl in H; lia].
Qed.

Lemma length_substring_0 (s : string) : forall n,
  String.length (substring 0 n s) = Nat.min n (String.length s).
Proof.
  induction s as [ | c s IH]; intros [ | n]; try reflexivity.
  cbn [substring String.length Nat.min]. now rewrite IH.
Qed.

Lemma length_append (a b : string) :
  String.length (a ++ b) = (String.length a + String.length b)%nat.
Proof. induction a; cbn; congruence. Qed.

Lemma substring_0_append (a b : string) : forall n,
  (n <= String.length a)%nat -> substring 0 n (a ++ b) = substring 0 n a.
Proof.
  induction a as [ | c a IH]; intros [ | n] H; try reflexivity.
  - destruct b; reflexivity.
  - simpl in H. lia.
  - cbn [append substring]. rewrite IH; [reflexivity | simpl in H; lia].
Qed.

Lemma substring_0_idem (s : string) : forall n,
  substring 0 n (substring 0 n s) = substring 0 n s.
Proof.
  induction s as [ | c s IH]; intros [ | n]; try reflexivity.
  cbn [substring]. now rewrite IH.
Qed.

(** X17: the success text echoes the data whole when it has at most 50
    characters, and its first 50 characters followed by [...] otherwise;
    the echo has at most 53 characters and starts as the data does. *)
Theorem excerpt_is_bounded (data : string) :
  ((String.length data <= 50)%nat -> excerpt data = data)
  /\ ((50 < String.length data)%nat ->
      excerpt data = substring 0 50 data ++ "..."
      /\ String.length (excerpt data) = 53%nat)
  /\ (String.length (excerpt data) <= 53)%nat
  /\ substring 0 50 (excerpt data) = substring 0 50 data.
Proof.
  unfold excerpt.
  destruct (50 <? String.length data)%nat eqn:E;
    [apply Nat.ltb_lt in E | apply Nat.ltb_ge in E].
  - assert (L : String.length (substring 0 50 data) = 50%nat)
      by (rewrite length_substring_0; lia).
    split; [lia | split; [ | split]].
    + intros _. split; [reflexivity | ]. rewrite length_append, L.
      reflexivity.
    + rewrite length_append, L. cbn. lia.
    + rewrite substring_0_append by lia. apply substring_0_idem.
  - rewrite append_empty_r, !(substring_0_all data 50 E).
    split; [reflexivity | split; [lia | split; [lia | reflexivity]]].
Qed.

Lemma excerpt_is_bounded_witness :
  excerpt "hello" = "hello".
Proof.
  refine (proj1 (excerpt_is_bounded "hello") _). cbn. lia.
Defined.

(** ** The base64 text of the image (lines 181-183) *)

Lemma list_ind3 {A : Type} (P : list A -> Prop) :
  P [] -> (forall a, P [a]) -> (forall a b, P [a; b]) ->
  (forall a b c rest, P rest -> P (a :: b :: c :: rest)) ->
  forall l, P l.
Proof.
  intros H0 H1 H2 H3.
  fix IH 1. intros [ | a [ | b [ | c rest]]];
    [exact H0 | apply H1 | apply H2 | apply H3, IH].
Qed.

Lemma byte_val_range (b : Byte.byte) : 0 <= byte_val b < 256.
Proof. unfold byte_val. pose proof (Byte.to_N_bounded b). lia. Qed.

Lemma byte_val_inj (a b : Byte.byte) : byte_val a = byte_val b -> a = b.
Proof.
  unfold byte_val. intros H. apply N2Z.inj in H.
  pose proof (Byte.of_to_N a) as Ha. rewrite H, Byte.of_to_N in Ha.
  congruence.
Qed.

Lemma sextet_eq n i :
  0 <= i -> sextet n i = b64_char ((n / 2 ^ (6 * i)) mod 64).
Proof.
  intros Hi. unfold sextet. rewrite Z.shiftr_div_pow2 by lia.
  change 63 with (Z.ones 6). now rewrite Z.land_ones by lia.
Qed.

(** The position of a character of the alphabet in the table. *)
Lemma b64_index (k : nat) :
  (k < 64)%nat ->
  index 0 (String (b64_char (Z.of_nat k)) EmptyString) table_b2a_base64
  = Some k.
Proof.
  intros H.
  do 64 (destruct k as [ | k]; [vm_compute; reflexivity | ]). lia.
Qed.

Lemma b64_char_inj n n' :
  0 <= n < 64 -> 0 <= n' < 64 -> b64_char n = b64_char n' -> n = n'.
Proof.
  intros Hn Hn' H.
  pose proof (b64_index (Z.to_nat n) ltac:(lia)) as E.
  pose proof (b64_index (Z.to_nat n') ltac:(lia)) as E'.
  rewrite Z2Nat.id in E, E' by lia. rewrite H, E' in E.
  injection E as E. lia.
Qed.

Lemma b64_char_not_pad n : 0 <= n < 64 -> b64_char n <> BASE64_PAD.
Proof.
  intros Hn H. pose proof (b64_index (Z.to_nat n) ltac:(lia)) as E.
  rewrite Z2Nat.id, H in E by lia. discriminate E.
Qed.

Lemma get_in_string (s : string) : forall k c,
  String.get k s = Some c ->
  existsb (Ascii.eqb c) (list_ascii_of_string s) = true.
Proof.
  induction s as [ | a s IH]; intros k c H; [destruct k; discriminate | ].
  cbn [list_ascii_of_string existsb]. destruct k as [ | k].
  - injection H as ->. now rewrite Ascii.eqb_refl.
  - cbn [get] in H. rewrite (IH k c H). apply orb_true_r.
Qed.

Lemma b64_char_in_alphabet n : in_alphabet (b64_char n) = true.
Proof.
  unfold in_alphabet, b64_char.
  destruct (get (Z.to_nat n) table_b2a_base64) as [c | ] eqn:E.
  - rewrite (get_in_string _ _ _ E). apply orb_true_r.
  - reflexivity.
Qed.

(** X15: the base64 text of [n] bytes has [4 * ceil(n / 3)] characters,
    all of them in the base64 alphabet or the padding character [=]. *)
Theorem b64encode_shape (data : list Byte.byte) :
  String.length (b64encode data) = (4 * ((List.length data + 2) / 3))%nat
  /\ all_chars in_alphabet (b64encode data) = true.
Proof.
  induction data as [ | a | a b | a b c rest [IH1 IH2]] using list_ind3.
  - split; reflexivity.
  - split; [reflexivity | ].
    cbn [b64encode all_chars]. unfold sextet.
    now rewrite !b64_char_in_alphabet.
  - split; [reflexivity | ].
    cbn [b64encode all_chars]. unfold sextet.
    now rewrite !b64_char_in_alphabet.
  - split.
    + cbn [b64encode String.length List.length]. rewrite IH1.
      replace (S (S (S (List.length rest))) + 2)%nat
        with (List.length rest + 2 + 1 * 3)%nat by lia.
      rewrite Nat.div_add by lia. lia.
    + cbn [b64encode all_chars]. unfold sextet.
      now rewrite !b64_char_in_alphabet, IH2.
Qed.

(** The four characters of a group determine its 24 bits. *)
Lemma group_inj n n' :
  0 <= n < 2 ^ 24 -> 0 <= n' < 2 ^ 24 ->
  sextet n 3 = sextet n' 3 -> sextet n 2 = sextet n' 2 ->
  sextet n 1 = sextet n' 1 -> sextet n 0 = sextet n' 0 ->
  n = n'.
Proof.
  intros Hn Hn'. rewrite !sextet_eq by lia.
  change (2 ^ (6 * 3)) with 262144. change (2 ^ (6 * 2)) with 4096.
  change (2 ^ (6 * 1)) with 64. change (2 ^ (6 * 0)) with 1.
  change (2 ^ 24) with 16777216 in *.
  intros H3 H2 H1 H0.
  apply b64_char_inj in H3, H2, H1, H0;
    try (apply Z.mod_pos_bound; lia).
  revert H3 H2 H1 H0. Z.div_mod_to_equations. lia.
Qed.

Lemma sextet_not_pad n i : 0 <= i -> sextet n i <> BASE64_PAD.
Proof.
  intros Hi. rewrite sextet_eq by lia. apply b64_char_not_pad.
  apply Z.mod_pos_bound. lia.
Qed.

Lemma four_chars_inj (a b c d a' b' c' d' : ascii) (r r' : string) :
  String a (String b (String c (String d r)))
  = String a' (String b' (String c' (String d' r'))) ->
  a = a' /\ b = b' /\ c = c' /\ d = d' /\ r = r'.
Proof. intros [= -> -> -> -> ->]. auto. Qed.

Lemma b64encode_inj (data data' : list Byte.byte) :
  b64encode data = b64encode data' -> data = data'.
Proof.
  revert data'.
  induction data as [ | a | a b | a b c rest IH] using list_ind3;
    intros [ | a' [ | b' [ | c' rest']]] H;
    try reflexivity; try discriminate H;
    cbn [b64encode] in H; cbv zeta in H;
    apply four_chars_inj in H as (H3 & H2 & H1 & H0 & Hr);
    try (symmetry in H1; now apply sextet_not_pad in H1);
    try (now apply sextet_not_pad in H1);
    try (symmetry in H0; now apply sextet_not_pad in H0);
    try (now apply sextet_not_pad in H0).
  - pose proof (byte_val_range a). pose proof (byte_val_range a').
    rewrite !Z.shiftl_mul_pow2 in * by lia.
    change (2 ^ 16) with 65536 in *.
    f_equal. apply byte_val_inj.
    enough (byte_val a * 65536 = byte_val a' * 65536) by lia.
    apply group_inj; try (change (2 ^ 24) with 16777216; lia);
      try assumption; rewrite !sextet_eq by lia;
      f_equal; change (2 ^ (6 * 1)) with 64; change (2 ^ (6 * 0)) with 1;
      Z.div_mod_to_equations; lia.
  - pose proof (byte_val_range a). pose proof (byte_val_range a').
    pose proof (byte_val_range b). pose proof (byte_val_range b').
    rewrite !Z.shiftl_mul_pow2 in * by lia.
    change (2 ^ 16) with 65536 in *. change (2 ^ 8) with 256 in *.
    enough (byte_val a * 65536 + byte_val b * 256
            = byte_val a' * 65536 + byte_val b' * 256).
    { assert (byte_val a = byte_val a') by lia.
      assert (byte_val b = byte_val b') by lia.
      f_equal; [ | f_equal]; now apply byte_val_inj. }
    apply group_inj; try (change (2 ^ 24) with 16777216; lia);
      try assumption; rewrite !sextet_eq by lia;
      f_equal; change (2 ^ (6 * 0)) with 1;
      Z.div_mod_to_equations; lia.
  - pose proof (byte_val_range a). pose proof (byte_val_range a').
    pose proof (byte_val_range b). pose proof (byte_val_range b').
    pose proof (byte_val_range c). pose proof (byte_val_range c').
    rewrite !Z.shiftl_mul_pow2 in * by lia.
    change (2 ^ 16) with 65536 in *. change (2 ^ 8) with 256 in *.
    assert (E : byte_val a * 65536 + byte_val b * 256 + byte_val c
                = byte_val a' * 65536 + byte_val b' * 256 + byte_val c').
    { apply group_inj; try (change (2 ^ 24) with 16777216; lia);
        assumption. }
    assert (byte_val a = byte_val a') by lia.
    assert (byte_val b = byte_val b') by lia.
    assert (byte_val c = byte_val c') by lia.
    f_equal; [ | f_equal; [ | f_equal]]; try now apply byte_val_inj.
    now apply IH.
Qed.

Lemma append_cancel_l (p a b : string) : p ++ a = p ++ b -> a = b.
Proof. induction p as [ | c p IH]; cbn; [auto | intros [= H]; auto]. Qed.

(** X16: the image can be read back from the text the tool returns: the
    base64 encoding is injective, so two success texts for the same data
    are equal only when the image bytes are. *)
Theorem image_is_determined_by_the_text
    (data : string) (png png' : list Byte.byte) :
  (b64encode png = b64encode png' -> png = png')
  /\ (success_text data png = success_text data png' -> png = png').
Proof.
  split; [apply b64encode_inj | ].
  unfold success_text. intros H.
  do 5 apply append_cancel_l in H.
  now apply b64encode_inj.
Qed.

Lemma image_is_determined_by_the_text_witness :
  generate_qr_code sample_package "hello" "M" 4 10
  = Ret (success_text "hello" [Byte.x51; Byte.x52; Byte.x21])
  /\ b64encode [Byte.x51; Byte.x52; Byte.x21] = "UVIh"
  /\ [Byte.x51; Byte.x52; Byte.x21] = [Byte.x51; Byte.x52; Byte.x21].
Proof.
  split; [reflexivity | split; [reflexivity | ]].
  exact (proj2 (image_is_determined_by_the_text "hello"
                  [Byte.x51; Byte.x52; Byte.x21]
                  [Byte.x51; Byte.x52; Byte.x21]) eq_refl).
Defined.
